(** * Task API (FastAPI + SQLAlchemy): a shallow embedding of [main.py]

    The request handlers of [main.py] are embedded as pure functions over an
    explicit store.  The relational store is a pair of tables (lists of
    rows, in insertion order) with their auto-increment counters; the server
    clock [func.now()] / [datetime.utcnow()] is an explicit argument [now],
    counted in seconds.  A handler returns either the exception it raises or
    its value, together with the store it leaves behind.

    Request bodies reach a handler already parsed into their schema
    ([UserCreate], [TaskCreate], [TaskUpdate]); the length and pattern
    constraints of the schema fields are not part of the embedding.  Text
    is compared byte by byte, so the store's collation is taken to be the
    binary one.  Strings are byte strings: case folding ([lower]) and the
    one-character wildcard of [like] are those of ASCII text, and the
    properties that depend on them are stated for ASCII text. *)

From Stdlib Require Import Ascii.
From stdpp Require Import base option list gmap strings pretty sorting.

Open Scope string_scope.
Open Scope Z_scope.

(** ** Time *)

Definition datetime := Z.
Definition timedelta := Z.

(** [timedelta(minutes=m)], in seconds. *)
Definition timedelta_minutes (m : Z) : timedelta := m * 60.

(** ** Configuration constants *)

Definition SECRET_KEY : string := "TESTE".
Definition ALGORITHM : string := "HS256".
Definition ACCESS_TOKEN_EXPIRE_MINUTES : Z := 30.

(** ** Status codes used by the handlers *)

Definition HTTP_401_UNAUTHORIZED : Z := 401.
Definition HTTP_404_NOT_FOUND : Z := 404.
Definition HTTP_409_CONFLICT : Z := 409.

(** ** Exceptions

    [HTTPException] is what the handlers raise themselves.  The other
    constructors are the exceptions that escape a handler unhandled
    ([IntegrityError] from the store on a NOT NULL violation,
    [AttributeError] from [getattr] or from a method call on an object that
    lacks the method, [NotImplementedError] from ordering by a relationship)
    and the rejection of a request by the parameter validation that runs
    before the handler body. *)

Inductive exn :=
| HTTPException (status_code : Z) (detail : string) (headers : list (string * string))
| RequestValidationError
| IntegrityError
| AttributeError
| NotImplementedError.

Global Instance exn_eq_dec : EqDecision exn.
Proof. solve_decision. Defined.

(** ** Rows and schemas *)

Inductive TaskStatusEnum := pending | completed.

Global Instance TaskStatusEnum_eq_dec : EqDecision TaskStatusEnum.
Proof. solve_decision. Defined.

Module DBUser.
Record t := mk {
  id : Z;
  name : string;
  email : string;
  hashed_password : string;
  created_at : datetime;
  updated_at : datetime }.
End DBUser.

Module DBTask.
Record t := mk {
  id : Z;
  title : string;
  description : option string;
  status : TaskStatusEnum;
  user_id : Z;
  created_at : datetime;
  updated_at : datetime }.
End DBTask.

Global Instance DBUser_eq_dec : EqDecision DBUser.t.
Proof. solve_decision. Defined.
Global Instance DBTask_eq_dec : EqDecision DBTask.t.
Proof. solve_decision. Defined.

Module UserCreate.
Record t := mk { name : string; email : string; password : string }.
End UserCreate.

Module User.
Record t := mk {
  id : Z;
  name : string;
  email : string;
  created_at : datetime;
  updated_at : datetime }.

(** [User.model_validate(db_user)] with [from_attributes = True]: each
    declared field is read from the attribute of the same name. *)
Definition model_validate (u : DBUser.t) : t :=
  {| id := DBUser.id u;
     name := DBUser.name u;
     email := DBUser.email u;
     created_at := DBUser.created_at u;
     updated_at := DBUser.updated_at u |}.
End User.

Module TaskCreate.
Record t := mk {
  title : string;
  description : option string;
  status : TaskStatusEnum }.
End TaskCreate.

Module Task.
Record t := mk {
  id : Z;
  title : string;
  description : option string;
  status : TaskStatusEnum;
  user_id : Z;
  created_at : datetime;
  updated_at : datetime }.

Definition model_validate (r : DBTask.t) : t :=
  {| id := DBTask.id r;
     title := DBTask.title r;
     description := DBTask.description r;
     status := DBTask.status r;
     user_id := DBTask.user_id r;
     created_at := DBTask.created_at r;
     updated_at := DBTask.updated_at r |}.
End Task.

Global Instance User_eq_dec : EqDecision User.t.
Proof. solve_decision. Defined.
Global Instance Task_eq_dec : EqDecision Task.t.
Proof. solve_decision. Defined.

(** ** The store

    [users] and [tasks] are the two tables; [next_user_id] and
    [next_task_id] are their AUTO_INCREMENT counters. *)

Record DB := mkDB {
  users : list DBUser.t;
  tasks : list DBTask.t;
  next_user_id : Z;
  next_task_id : Z }.

(** [query.first()] *)
Definition first {A} (rows : list A) : option A := head rows.

(** ** Bearer tokens

    Modelled from the spec: the [jose] library ([jwt.encode], [jwt.decode])
    is not part of [main.py].  Section 4.2 of the specification gives its
    contract: a token is a signed claim set; "validation fails with
    ExpiredToken when now >= exp, with MalformedToken when the structure or
    signature is invalid, with InvalidSignature when the signature does not
    match the configured secret/algorithm".  The signature is idealised: a
    well-formed token records the claim set together with the key and
    algorithm it was signed under, and any other text is [Malformed]. *)

Inductive claim :=
| ClaimStr (s : string)
| ClaimInt (n : Z).

Global Instance claim_eq_dec : EqDecision claim.
Proof. solve_decision. Defined.

Inductive token :=
| Signed (payload : gmap string claim) (key : string) (algorithm : string)
| Malformed (raw : string).

Inductive JWTError :=
| ExpiredSignatureError
| JWTClaimsError
| JWSSignatureError
| JWSError.

Definition jwt_encode (claims : gmap string claim) (key algorithm : string) : token :=
  Signed claims key algorithm.

Definition jwt_decode (tok : token) (key : string) (algorithms : list string)
    (now : datetime) : JWTError + gmap string claim :=
  match tok with
  | Malformed _ => inl JWSError
  | Signed payload key' algorithm =>
      if negb (bool_decide (algorithm ∈ algorithms)) then inl JWSError
      else if negb (bool_decide (key' = key)) then inl JWSSignatureError
      else match payload !! "exp" with
           | None => inr payload
           | Some (ClaimStr _) => inl JWTClaimsError
           | Some (ClaimInt exp) =>
               if bool_decide (exp ≤ now) then inl ExpiredSignatureError
               else inr payload
           end
  end.

Module TokenResponse.
Record t := mk { access_token : token; token_type : string }.
End TokenResponse.

(** [create_access_token]: [if expires_delta:] is false for [None] and for
    the zero [timedelta]. *)
Definition create_access_token (data : gmap string claim)
    (expires_delta : option timedelta) (now : datetime) : token :=
  let to_encode := data in
  let expire :=
    match expires_delta with
    | Some delta =>
        if bool_decide (delta = 0)
        then now + timedelta_minutes ACCESS_TOKEN_EXPIRE_MINUTES
        else now + delta
    | None => now + timedelta_minutes ACCESS_TOKEN_EXPIRE_MINUTES
    end in
  let to_encode := <["exp" := ClaimInt expire]> to_encode in
  jwt_encode to_encode SECRET_KEY ALGORITHM.

Definition credentials_exception : exn :=
  HTTPException HTTP_401_UNAUTHORIZED "Não foi possível validar as credenciais"
                [("WWW-Authenticate", "Bearer")].

(** [DBUser.id == user_id], where [user_id] is the ["sub"] claim.  [login]
    stores [str(db_user.id)] there, so the integer column is compared with a
    string: the row matches when its id prints as that decimal string.
    This is the comparison on the subjects [login] writes.  The store
    converts the string to a number before comparing, so it also accepts
    other spellings of the same number (["01"], ["+1"], [" 1"], ["1.0"]);
    those subjects, which no token of [login] carries, are outside the
    embedding and nothing is stated about them. *)
Definition id_matches (id : Z) (user_id : claim) : Prop :=
  match user_id with
  | ClaimInt n => id = n
  | ClaimStr s => pretty id = s
  end.

Global Instance id_matches_dec id user_id : Decision (id_matches id user_id).
Proof. destruct user_id; simpl; apply _. Defined.

(** [get_current_user]: every failure, whichever exception caused it, is
    re-raised as [credentials_exception]. *)
Definition get_current_user (db : DB) (tok : token) (now : datetime) : exn + User.t :=
  match jwt_decode tok SECRET_KEY [ALGORITHM] now with
  | inl _ => inl credentials_exception
  | inr payload =>
      match payload !! "sub" with
      | None => inl credentials_exception
      | Some user_id =>
          match first (filter (λ u, id_matches (DBUser.id u) user_id) (users db)) with
          | None => inl credentials_exception
          | Some user => inr (User.model_validate user)
          end
      end
  end.

(** ** Account service

    [bcrypt] is an external primitive: [hashpw password salt] and
    [checkpw password hashed] are parameters of the development, and the
    salt drawn by [bcrypt.gensalt()] is an explicit argument of
    [register]. *)

Section Account.
Variable hashpw : string → string → string.
Variable checkpw : string → string → bool.

Definition register (user_create : UserCreate.t) (salt : string)
    (now : datetime) (db : DB) : (exn + User.t) * DB :=
  let db_user :=
    first (filter (λ u, DBUser.email u = UserCreate.email user_create) (users db)) in
  match db_user with
  | Some _ => (inl (HTTPException HTTP_409_CONFLICT "E-mail já registrado." []), db)
  | None =>
      let hashed_password := hashpw (UserCreate.password user_create) salt in
      let db_user :=
        {| DBUser.id := next_user_id db;
           DBUser.name := UserCreate.name user_create;
           DBUser.email := UserCreate.email user_create;
           DBUser.hashed_password := hashed_password;
           DBUser.created_at := now;
           DBUser.updated_at := now |} in
      (inr (User.model_validate db_user),
       {| users := users db ++ [db_user];
          tasks := tasks db;
          next_user_id := next_user_id db + 1;
          next_task_id := next_task_id db |})
  end.

Definition login (username password : string) (now : datetime) (db : DB)
    : exn + TokenResponse.t :=
  let db_user := first (filter (λ u, DBUser.email u = username) (users db)) in
  match db_user with
  | None =>
      inl (HTTPException HTTP_401_UNAUTHORIZED "Credenciais inválidas"
                         [("WWW-Authenticate", "Bearer")])
  | Some db_user =>
      if negb (checkpw password (DBUser.hashed_password db_user)) then
        inl (HTTPException HTTP_401_UNAUTHORIZED "Credenciais inválidas"
                           [("WWW-Authenticate", "Bearer")])
      else
        let access_token_expires := timedelta_minutes ACCESS_TOKEN_EXPIRE_MINUTES in
        let access_token :=
          create_access_token {["sub" := ClaimStr (pretty (DBUser.id db_user))]}
                              (Some access_token_expires) now in
        inr {| TokenResponse.access_token := access_token;
               TokenResponse.token_type := "bearer" |}
  end.
End Account.

(** ** Strings as the store compares them *)

(** [str.lower()] and the store's [lower()], on ASCII text: the letters
    [A]-[Z] are folded, every other byte is kept.  Letters outside ASCII,
    which both fold as well, are outside the embedding. *)
Definition lower_char (c : ascii) : ascii :=
  let n := nat_of_ascii c in
  if ((65 <=? n) && (n <=? 90))%nat then ascii_of_nat (n + 32) else c.

Fixpoint lower (s : string) : string :=
  match s with
  | EmptyString => EmptyString
  | String c s' => String (lower_char c) (lower s')
  end.

(** The [LIKE] operator: [%] matches any run of characters, [_] exactly
    one, and a backslash takes the next pattern character literally.  A
    character is a byte here, which is what it is in ASCII text. *)
Fixpoint like (pattern : string) : string → bool :=
  match pattern with
  | EmptyString => λ s, bool_decide (s = EmptyString)
  | String c p =>
      if bool_decide (c = "%"%char) then
        fix any (s : string) : bool :=
          like p s || match s with EmptyString => false | String _ s' => any s' end
      else if bool_decide (c = "_"%char) then
        λ s, match s with EmptyString => false | String _ s' => like p s' end
      else if bool_decide (c = "\"%char) then
        match p with
        | EmptyString => λ s, bool_decide (s = String c EmptyString)
        | String d p' =>
            λ s, match s with
                 | EmptyString => false
                 | String e s' => bool_decide (d = e) && like p' s'
                 end
        end
      else
        λ s, match s with
             | EmptyString => false
             | String e s' => bool_decide (c = e) && like p s'
             end
  end.

(** [column.ilike(pattern)]: [lower(column) LIKE lower(pattern)]; on a NULL
    column the comparison is NULL, which selects nothing. *)
Definition ilike (column : option string) (pattern : string) : bool :=
  match column with
  | None => false
  | Some v => like (lower pattern) (lower v)
  end.

(** Values of a column, as [ORDER BY] compares them: NULL sorts first,
    integers and timestamps by value, strings lexicographically. *)
Inductive sqlvalue :=
| SqlNull
| SqlInt (n : Z)
| SqlStr (s : string).

Definition sql_le (a b : sqlvalue) : Prop :=
  match a, b with
  | SqlNull, _ => True
  | _, SqlNull => False
  | SqlInt m, SqlInt n => m ≤ n
  | SqlInt _, SqlStr _ => True
  | SqlStr _, SqlInt _ => False
  | SqlStr s, SqlStr t => String.le s t
  end.

Global Instance sql_le_dec a b : Decision (sql_le a b).
Proof. destruct a, b; simpl; apply _. Defined.

(** An [ENUM] column sorts by the position of the member in the enumeration. *)
Definition enum_index (s : TaskStatusEnum) : Z :=
  match s with pending => 1 | completed => 2 end.

(** [getattr(DBTask, sort_by)] when it is a mapped column of [DBTask]: the
    column, as the key [ORDER BY] sorts on.  [None] stands for every other
    outcome of [getattr] -- no such attribute, or an attribute that is no
    column -- which [ordered_tasks] tells apart. *)
Definition getattr_DBTask (name : string) : option (DBTask.t → sqlvalue) :=
  if bool_decide (name = "id") then Some (λ t, SqlInt (DBTask.id t))
  else if bool_decide (name = "title") then Some (λ t, SqlStr (DBTask.title t))
  else if bool_decide (name = "description") then
    Some (λ t, match DBTask.description t with None => SqlNull | Some d => SqlStr d end)
  else if bool_decide (name = "status") then
    Some (λ t, SqlInt (enum_index (DBTask.status t)))
  else if bool_decide (name = "user_id") then Some (λ t, SqlInt (DBTask.user_id t))
  else if bool_decide (name = "created_at") then Some (λ t, SqlInt (DBTask.created_at t))
  else if bool_decide (name = "updated_at") then Some (λ t, SqlInt (DBTask.updated_at t))
  else None.

(** [query.order_by(column.asc())] and [query.order_by(column.desc())].
    Rows with equal keys may come in any order from the store; the model
    fixes the order [merge_sort] gives. *)
Definition asc (column : DBTask.t → sqlvalue) (a b : DBTask.t) : Prop :=
  sql_le (column a) (column b).
Definition desc (column : DBTask.t → sqlvalue) (a b : DBTask.t) : Prop :=
  sql_le (column b) (column a).

Global Instance asc_dec column a b : Decision (asc column a b).
Proof. unfold asc; apply _. Defined.
Global Instance desc_dec column a b : Decision (desc column a b).
Proof. unfold desc; apply _. Defined.

Definition order_by (R : DBTask.t → DBTask.t → Prop) `{!∀ a b, Decision (R a b)}
    (rows : list DBTask.t) : list DBTask.t :=
  merge_sort R rows.

(** ** Task repository *)

Definition not_found : exn :=
  HTTPException HTTP_404_NOT_FOUND "Tarefa não encontrada." [].

Definition create_task (task_create : TaskCreate.t) (current_user : User.t)
    (now : datetime) (db : DB) : (exn + Task.t) * DB :=
  let db_task :=
    {| DBTask.id := next_task_id db;
       DBTask.title := TaskCreate.title task_create;
       DBTask.description := TaskCreate.description task_create;
       DBTask.status := TaskCreate.status task_create;
       DBTask.user_id := User.id current_user;
       DBTask.created_at := now;
       DBTask.updated_at := now |} in
  (inr (Task.model_validate db_task),
   {| users := users db;
      tasks := tasks db ++ [db_task];
      next_user_id := next_user_id db;
      next_task_id := next_task_id db + 1 |}).

(** Python truthiness of an optional string: [None] and [""] are false. *)
Definition truthy (s : option string) : bool :=
  match s with
  | None => false
  | Some v => negb (bool_decide (v = ""))
  end.

(** The filtered query of [get_tasks], before ordering and pagination. *)
Definition filtered_tasks (current_user : User.t) (db : DB)
    (status_filter : option TaskStatusEnum) (search : option string) : list DBTask.t :=
  let query := filter (λ t, DBTask.user_id t = User.id current_user) (tasks db) in
  let query :=
    match status_filter with
    | Some st => filter (λ t, DBTask.status t = st) query
    | None => query
    end in
  if truthy search then
    let search_lower := "%" +:+ lower (default "" search) +:+ "%" in
    filter (λ t, ilike (Some (DBTask.title t)) search_lower
                 || ilike (DBTask.description t) search_lower) query
  else query.

(** The ordering step of [get_tasks].  [getattr] raises [AttributeError]
    on a name [DBTask] does not have, and [sort_order.lower()] raises it on
    [None].  Besides its columns [DBTask] has the relationship [owner]:
    [getattr] finds it, and [.asc()] or [.desc()] on it raises
    [NotImplementedError].  The remaining attributes of the class
    ([metadata], [__tablename__], ...) are objects without [asc] and [desc],
    so that calling either is an [AttributeError] again. *)
Definition ordered_tasks (sort_by sort_order : option string) (query : list DBTask.t)
    : exn + list DBTask.t :=
  if truthy sort_by then
    match getattr_DBTask (default "" sort_by) with
    | None =>
        if bool_decide (default "" sort_by = "owner") then
          match sort_order with
          | None => inl AttributeError
          | Some _ => inl NotImplementedError
          end
        else inl AttributeError
    | Some sort_column =>
        match sort_order with
        | None => inl AttributeError
        | Some sort_order =>
            if bool_decide (lower sort_order = "desc")
            then inr (order_by (desc sort_column) query)
            else inr (order_by (asc sort_column) query)
        end
    end
  else inr query.

(** The body of [get_tasks]. *)
Definition get_tasks (current_user : User.t) (db : DB)
    (status_filter : option TaskStatusEnum) (search : option string)
    (page limit : Z) (sort_by sort_order : option string) : exn + list Task.t :=
  let query := filtered_tasks current_user db status_filter search in
  match ordered_tasks sort_by sort_order query with
  | inl e => inl e
  | inr query =>
      let offset := (page - 1) * limit in
      let db_tasks := take (Z.to_nat limit) (drop (Z.to_nat offset) query) in
      inr (Task.model_validate <$> db_tasks)
  end.

(** The query parameters of [GET /tasks/] as the request carries them: an
    absent parameter is [None] and takes the declared default.  The
    framework checks what the declarations constrain before the body runs:
    [status] must name a member of [TaskStatusEnum], [page] and [limit] must
    satisfy [ge=1].  The [enum=[...]] argument of [sort_by] and [sort_order]
    only annotates the published schema; the declared type of both is
    [Optional[str]], so every string is passed on to the body. *)
Definition parse_status (s : string) : option TaskStatusEnum :=
  if bool_decide (s = "pending") then Some pending
  else if bool_decide (s = "completed") then Some completed
  else None.

Definition get_tasks_endpoint (db : DB) (tok : token) (now : datetime)
    (status search : option string) (page limit : option Z)
    (sort_by sort_order : option string) : exn + list Task.t :=
  match get_current_user db tok now with
  | inl e => inl e
  | inr current_user =>
      let page := default 1 page in
      let limit := default 10 limit in
      let sort_by := Some (default "created_at" sort_by) in
      let sort_order := Some (default "desc" sort_order) in
      let status_ok :=
        match status with
        | None => Some None
        | Some s => Some <$> parse_status s
        end in
      match status_ok with
      | None => inl RequestValidationError
      | Some status_filter =>
          if bool_decide (1 ≤ page) && bool_decide (1 ≤ limit) then
            get_tasks current_user db status_filter search page limit sort_by sort_order
          else inl RequestValidationError
      end
  end.

(** The owner-scoped lookup shared by [get_task_by_id], [update_task] and
    [delete_task]:
    [db.query(DBTask).filter(DBTask.id == task_id,
                             DBTask.user_id == current_user.id).first()]. *)
Definition owned_task (task_id : Z) (current_user : User.t) (db : DB) : option DBTask.t :=
  first (filter (λ t, DBTask.id t = task_id ∧ DBTask.user_id t = User.id current_user)
                (tasks db)).

Definition get_task_by_id (task_id : Z) (current_user : User.t) (db : DB) : exn + Task.t :=
  match owned_task task_id current_user db with
  | None => inl not_found
  | Some db_task => inr (Task.model_validate db_task)
  end.

(** [TaskUpdate]: every field defaults to [None]; [model_fields_set] holds
    the names of the fields the request body supplied. *)
Module TaskUpdate.
Record t := mk {
  title : option string;
  description : option string;
  status : option TaskStatusEnum;
  model_fields_set : gset string }.
End TaskUpdate.

(** One item [(key, value)] of the dictionary [model_dump] returns. *)
Inductive item :=
| title_item (value : option string)
| description_item (value : option string)
| status_item (value : option TaskStatusEnum).

(** [task_update.model_dump(exclude_unset=True)]: the supplied fields, in
    declaration order. *)
Definition model_dump_exclude_unset (task_update : TaskUpdate.t) : list item :=
  let set := TaskUpdate.model_fields_set task_update in
  (if bool_decide ("title" ∈ set) then [title_item (TaskUpdate.title task_update)] else [])
  ++ (if bool_decide ("description" ∈ set)
      then [description_item (TaskUpdate.description task_update)] else [])
  ++ (if bool_decide ("status" ∈ set)
      then [status_item (TaskUpdate.status task_update)] else []).

(** The attributes of a loaded [DBTask] instance that [update_task] can
    assign.  Until the flush they may hold [None] whatever the column
    allows. *)
Record attrs := mkAttrs {
  attr_title : option string;
  attr_description : option string;
  attr_status : option TaskStatusEnum }.

Global Instance attrs_eq_dec : EqDecision attrs.
Proof. solve_decision. Defined.

Definition loaded (row : DBTask.t) : attrs :=
  {| attr_title := Some (DBTask.title row);
     attr_description := DBTask.description row;
     attr_status := Some (DBTask.status row) |}.

(** [setattr(db_task, key, value)] *)
Definition setattr (db_task : attrs) (kv : item) : attrs :=
  match kv with
  | title_item value =>
      {| attr_title := value;
         attr_description := attr_description db_task;
         attr_status := attr_status db_task |}
  | description_item value =>
      {| attr_title := attr_title db_task;
         attr_description := value;
         attr_status := attr_status db_task |}
  | status_item value =>
      {| attr_title := attr_title db_task;
         attr_description := attr_description db_task;
         attr_status := value |}
  end.

(** [UPDATE tasks SET ... WHERE tasks.id = <primary key>] *)
Definition write_task (row' : DBTask.t) (db : DB) : DB :=
  {| users := users db;
     tasks := (λ t, if bool_decide (DBTask.id t = DBTask.id row') then row' else t)
                <$> tasks db;
     next_user_id := next_user_id db;
     next_task_id := next_task_id db |}.

(** [db.commit(); db.refresh(db_task)] on the instance.  The session writes
    an UPDATE only when an attribute differs from the loaded row, and it is
    that UPDATE which evaluates [onupdate=func.now()] for [updated_at].
    [title] and [status] are declared [nullable=False]: writing NULL there
    is refused and nothing is stored. *)
Definition commit (row : DBTask.t) (db_task : attrs) (now : datetime) (db : DB)
    : exn + DBTask.t * DB :=
  if bool_decide (db_task = loaded row) then inr (row, db)
  else
    match attr_title db_task, attr_status db_task with
    | Some title, Some status =>
        let row' :=
          {| DBTask.id := DBTask.id row;
             DBTask.title := title;
             DBTask.description := attr_description db_task;
             DBTask.status := status;
             DBTask.user_id := DBTask.user_id row;
             DBTask.created_at := DBTask.created_at row;
             DBTask.updated_at := now |} in
        inr (row', write_task row' db)
    | _, _ => inl IntegrityError
    end.

Definition update_task (task_id : Z) (task_update : TaskUpdate.t)
    (current_user : User.t) (now : datetime) (db : DB) : (exn + Task.t) * DB :=
  match owned_task task_id current_user db with
  | None => (inl not_found, db)
  | Some db_task =>
      let updates := model_dump_exclude_unset task_update in
      let instance := foldl setattr (loaded db_task) updates in
      match commit db_task instance now db with
      | inl e => (inl e, db)
      | inr (row', db') => (inr (Task.model_validate row'), db')
      end
  end.

(** [DELETE FROM tasks WHERE tasks.id = <primary key>] *)
Definition delete_task (task_id : Z) (current_user : User.t) (db : DB) : (exn + unit) * DB :=
  match owned_task task_id current_user db with
  | None => (inl not_found, db)
  | Some db_task =>
      (inr (),
       {| users := users db;
          tasks := filter (λ t, DBTask.id t ≠ DBTask.id db_task) (tasks db);
          next_user_id := next_user_id db;
          next_task_id := next_task_id db |})
  end.

(** ** Store invariant

    What the schema's constraints guarantee of every reachable store: the
    primary keys and the [unique=True] email column hold no duplicates, and
    the AUTO_INCREMENT counters are ahead of every id handed out. *)

Record consistent (db : DB) : Prop := {
  user_ids_unique : NoDup (DBUser.id <$> users db);
  emails_unique : NoDup (DBUser.email <$> users db);
  task_ids_unique : NoDup (DBTask.id <$> tasks db);
  user_ids_below : ∀ u, u ∈ users db → DBUser.id u < next_user_id db;
  task_ids_below : ∀ t, t ∈ tasks db → DBTask.id t < next_task_id db }.

(** ** A sample store

    Two accounts and a few tasks, used to run the handlers on concrete
    requests.  [Sample.hashpw] and [Sample.checkpw] stand in for [bcrypt]
    there; nothing is proved about them. *)

Module Sample.
Definition hashpw (password salt : string) : string := salt +:+ "$" +:+ password.
Definition checkpw (password hashed : string) : bool :=
  bool_decide (hashed = hashpw password "salt").

Definition ana : DBUser.t := DBUser.mk 1 "Ana" "ana@x.com" "salt$secret1" 1000 1000.
Definition bob : DBUser.t := DBUser.mk 2 "Bob" "bob@x.com" "salt$hunter22" 1500 1500.

Definition milk : DBTask.t :=
  DBTask.mk 1 "Buy milk" None pending 1 2000 2000.
Definition report : DBTask.t :=
  DBTask.mk 2 "Write report" (Some "quarterly numbers") completed 1 2100 2500.
Definition secret : DBTask.t :=
  DBTask.mk 3 "Plan party" (Some "surprise for Ana") pending 2 2200 2200.
Definition call : DBTask.t :=
  DBTask.mk 4 "call the bank" None pending 1 2300 2300.

Definition db : DB :=
  {| users := [ana; bob];
     tasks := [milk; report; secret; call];
     next_user_id := 3;
     next_task_id := 5 |}.
End Sample.

(** ** Replacing the stored hashes

    [rehash f db] is [db] with every stored password hash [h] replaced by
    [f h].  It is used to say that a result does not depend on the hashes. *)

Definition with_hash (h : string) (u : DBUser.t) : DBUser.t :=
  {| DBUser.id := DBUser.id u;
     DBUser.name := DBUser.name u;
     DBUser.email := DBUser.email u;
     DBUser.hashed_password := h;
     DBUser.created_at := DBUser.created_at u;
     DBUser.updated_at := DBUser.updated_at u |}.

Definition rehash (f : string → string) (db : DB) : DB :=
  {| users := (λ u, with_hash (f (DBUser.hashed_password u)) u) <$> users db;
     tasks := tasks db;
     next_user_id := next_user_id db;
     next_task_id := next_task_id db |}.

(** ** Vocabulary of the further statements *)

(** The rows of the task table that belong to [v]. *)
Definition tasks_of (v : User.t) (db : DB) : list DBTask.t :=
  filter (λ t, DBTask.user_id t = User.id v) (tasks db).

(** [needle] occurs somewhere in [text]. *)
Definition occurs_in (needle text : string) : Prop :=
  ∃ before after, text = before +:+ needle +:+ after.

(** A character that [LIKE] reads as itself. *)
Definition plain_char (c : ascii) : bool :=
  negb (bool_decide (c = "%"%char)) && negb (bool_decide (c = "_"%char))
  && negb (bool_decide (c = "\"%char)).

Fixpoint plain (s : string) : bool :=
  match s with
  | EmptyString => true
  | String c s' => plain_char c && plain s'
  end.

(** Text made of ASCII characters only. *)
Fixpoint ascii_text (s : string) : bool :=
  match s with
  | EmptyString => true
  | String c s' => (nat_of_ascii c <? 128)%nat && ascii_text s'
  end.

(** * Properties *)

(** ** Queries *)

Section query.
Context {A : Type} (P : A → Prop) `{!∀ x, Decision (P x)}.

Lemma first_filter_None (rows : list A) :
  first (filter P rows) = None ↔ ∀ x, x ∈ rows → ¬ P x.
Proof.
  unfold first. rewrite head_None. split.
  - intros Hnil x Hx HP.
    assert (x ∈ filter P rows) as Hin by (apply list_elem_of_filter; done).
    rewrite Hnil in Hin. by apply not_elem_of_nil in Hin.
  - intros Hnone. induction rows as [|y rows IH]; [done|].
    rewrite filter_cons. destruct (decide (P y)) as [HP|_].
    + exfalso. apply (Hnone y); [left|done].
    + apply IH. intros x Hx. apply Hnone. by right.
Qed.

Lemma first_filter_Some (rows : list A) (x : A) :
  first (filter P rows) = Some x → x ∈ rows ∧ P x.
Proof.
  unfold first. intros Hx. apply head_Some_elem_of in Hx.
  by apply list_elem_of_filter in Hx as [? ?].
Qed.

(** A key column without duplicates: the query that selects on the key
    of a stored row returns that row. *)
Lemma first_filter_key {K : Type} (key : A → K) (rows : list A) (x : A) :
  NoDup (key <$> rows) → x ∈ rows → P x →
  (∀ y, y ∈ rows → P y → key y = key x) →
  first (filter P rows) = Some x.
Proof.
  intros Hnd Hx HP Hkey.
  destruct (first (filter P rows)) as [y|] eqn:Hy.
  - apply first_filter_Some in Hy as [Hy HPy]. f_equal.
    pose proof (Hkey y Hy HPy) as Heq.
    apply list_elem_of_lookup in Hy as [i Hi].
    apply list_elem_of_lookup in Hx as [j Hj].
    assert (i = j) as ->; [|congruence].
    eapply NoDup_lookup; [exact Hnd| |].
    + rewrite list_lookup_fmap, Hi. reflexivity.
    + rewrite list_lookup_fmap, Hj. simpl. by rewrite Heq.
  - rewrite first_filter_None in Hy. by destruct (Hy x Hx).
Qed.
End query.

Lemma owned_task_None (task_id : Z) (u : User.t) (db : DB) :
  owned_task task_id u db = None ↔
  ∀ t, t ∈ tasks db → DBTask.id t = task_id → DBTask.user_id t ≠ User.id u.
Proof.
  unfold owned_task. rewrite first_filter_None. split.
  - intros H t Ht Hid Hu. apply (H t Ht). done.
  - intros H t Ht [Hid Hu]. by apply (H t Ht Hid).
Qed.

Lemma owned_task_Some (task_id : Z) (u : User.t) (db : DB) (row : DBTask.t) :
  owned_task task_id u db = Some row →
  row ∈ tasks db ∧ DBTask.id row = task_id ∧ DBTask.user_id row = User.id u.
Proof. intros H. by apply first_filter_Some in H as [? [? ?]]. Qed.

(** ** Ownership *)

(** C1.  When the store holds no task with id [task_id] owned by [u] --
    every task with that id, if there is one at all, belongs to somebody
    else -- [get_task_by_id], [update_task] and [delete_task] all raise the
    same 404 [HTTPException]: the answer carries no task data, is the same
    value whichever of the two causes applies, and the store is left as it
    was. *)
Theorem not_owned_is_not_found (db : DB) (u : User.t) (task_id : Z)
    (fields : TaskUpdate.t) (now : datetime) :
  (∀ t, t ∈ tasks db → DBTask.id t = task_id → DBTask.user_id t ≠ User.id u) →
  get_task_by_id task_id u db = inl (HTTPException 404 "Tarefa não encontrada." []) ∧
  update_task task_id fields u now db
    = (inl (HTTPException 404 "Tarefa não encontrada." []), db) ∧
  delete_task task_id u db = (inl (HTTPException 404 "Tarefa não encontrada." []), db).
Proof.
  intros Hnone. apply owned_task_None in Hnone.
  unfold get_task_by_id, update_task, delete_task. rewrite Hnone. done.
Qed.

(** ** Tokens *)

Lemma jwt_decode_create_access_token (data : gmap string claim) (delta : timedelta)
    (t0 now : datetime) :
  delta ≠ 0 →
  jwt_decode (create_access_token data (Some delta) t0) SECRET_KEY [ALGORITHM] now
  = if bool_decide (t0 + delta ≤ now) then inl ExpiredSignatureError
    else inr (<["exp" := ClaimInt (t0 + delta)]> data).
Proof.
  intros Hdelta. unfold create_access_token, jwt_encode, jwt_decode.
  rewrite (bool_decide_eq_false_2 (delta = 0)) by done.
  rewrite (bool_decide_eq_true_2 (ALGORITHM ∈ [ALGORITHM])) by apply list_elem_of_here.
  rewrite (bool_decide_eq_true_2 (SECRET_KEY = SECRET_KEY)) by done.
  simpl. by rewrite lookup_insert_eq.
Qed.

Lemma create_access_token_default (data : gmap string claim) (t0 : datetime) :
  create_access_token data None t0
  = create_access_token data (Some (timedelta_minutes ACCESS_TOKEN_EXPIRE_MINUTES)) t0.
Proof. reflexivity. Qed.

(** The lookup of [get_current_user] on the subject [login] writes. *)
Lemma user_by_subject (db : DB) (user : DBUser.t) :
  consistent db → user ∈ users db →
  first (filter (λ u, id_matches (DBUser.id u) (ClaimStr (pretty (DBUser.id user))))
                (users db)) = Some user.
Proof.
  intros Hdb Huser.
  apply (first_filter_key _ DBUser.id); [apply Hdb|done|done|].
  intros y _ Hy. simpl in Hy. by apply (inj pretty) in Hy.
Qed.

(** C2.  The token [login] mints for a stored user at [t0] carries the
    user's id as subject and [t0 + 30 minutes] as expiry (also when the
    lifetime is left to the default).  While [now] is before the expiry the
    token decodes to its claims and [get_current_user] resolves the user;
    from the expiry on, decoding fails with [ExpiredSignatureError], which
    [get_current_user] reports as its 401. *)
Theorem token_expiry (db : DB) (user : DBUser.t) (t0 now : datetime) :
  consistent db → user ∈ users db →
  let data : gmap string claim := {["sub" := ClaimStr (pretty (DBUser.id user))]} in
  let tok :=
    create_access_token data (Some (timedelta_minutes ACCESS_TOKEN_EXPIRE_MINUTES)) t0 in
  ∃ payload,
    tok = Signed payload SECRET_KEY ALGORITHM ∧
    create_access_token data None t0 = tok ∧
    payload !! "exp" = Some (ClaimInt (t0 + 30 * 60)) ∧
    payload !! "sub" = Some (ClaimStr (pretty (DBUser.id user))) ∧
    (now < t0 + 30 * 60 →
       jwt_decode tok SECRET_KEY [ALGORITHM] now = inr payload ∧
       get_current_user db tok now = inr (User.model_validate user)) ∧
    (t0 + 30 * 60 ≤ now →
       jwt_decode tok SECRET_KEY [ALGORITHM] now = inl ExpiredSignatureError ∧
       get_current_user db tok now = inl credentials_exception).
Proof.
  intros Hdb Huser data tok.
  exists (<["exp" := ClaimInt (t0 + 30 * 60)]> data).
  assert (Hdec : ∀ n, jwt_decode tok SECRET_KEY [ALGORITHM] n
      = if bool_decide (t0 + 30 * 60 ≤ n) then inl ExpiredSignatureError
        else inr (<["exp" := ClaimInt (t0 + 30 * 60)]> data)).
  { intros n. unfold tok. by rewrite jwt_decode_create_access_token. }
  assert (Hsub : (<["exp" := ClaimInt (t0 + 30 * 60)]> data) !! "sub"
                 = Some (ClaimStr (pretty (DBUser.id user)))).
  { rewrite lookup_insert_ne by done. apply lookup_singleton_eq. }
  split_and!; [done|done|by rewrite lookup_insert_eq|done| |].
  - intros Hnow. unfold get_current_user. rewrite Hdec.
    rewrite bool_decide_eq_false_2 by lia. split; [done|].
    rewrite Hsub. by rewrite user_by_subject.
  - intros Hnow. unfold get_current_user. rewrite Hdec.
    by rewrite bool_decide_eq_true_2 by lia.
Qed.

(** ** Accounts *)

Lemma user_by_email (db : DB) (user : DBUser.t) :
  consistent db → user ∈ users db →
  first (filter (λ u, DBUser.email u = DBUser.email user) (users db)) = Some user.
Proof.
  intros Hdb Huser.
  by apply (first_filter_key _ DBUser.email); [apply Hdb|done|done|].
Qed.

(** C5.  [login] answers a request for an unknown email and a request with
    a password that [checkpw] rejects with one and the same exception: 401,
    "Credenciais inválidas", [WWW-Authenticate: Bearer].  When the password
    is accepted, the answer is a ["bearer"] token whose subject is the id of
    the user with that email, and [get_current_user] resolves it to that
    user. *)
Theorem login_uniform (checkpw : string → string → bool) (db : DB)
    (username password : string) (now : datetime) :
  consistent db →
  let unauthorized : exn + TokenResponse.t :=
    inl (HTTPException 401 "Credenciais inválidas" [("WWW-Authenticate", "Bearer")]) in
  ((∀ u, u ∈ users db → DBUser.email u ≠ username) →
     login checkpw username password now db = unauthorized) ∧
  (∀ u, u ∈ users db → DBUser.email u = username →
     (checkpw password (DBUser.hashed_password u) = false →
        login checkpw username password now db = unauthorized) ∧
     (checkpw password (DBUser.hashed_password u) = true →
        ∃ tok payload,
          login checkpw username password now db
            = inr {| TokenResponse.access_token := tok;
                     TokenResponse.token_type := "bearer" |} ∧
          jwt_decode tok SECRET_KEY [ALGORITHM] now = inr payload ∧
          payload !! "sub" = Some (ClaimStr (pretty (DBUser.id u))) ∧
          get_current_user db tok now = inr (User.model_validate u))).
Proof.
  intros Hdb unauthorized. split.
  - intros Hnone. unfold login.
    by rewrite (proj2 (first_filter_None _ (users db))).
  - intros u Hu <-. unfold login. rewrite (user_by_email db u Hdb Hu). split.
    + by intros ->.
    + intros ->. simpl. eexists _, _. split; [reflexivity|].
      assert (Hdec : jwt_decode
                (create_access_token {["sub" := ClaimStr (pretty (DBUser.id u))]}
                   (Some (timedelta_minutes ACCESS_TOKEN_EXPIRE_MINUTES)) now)
                SECRET_KEY [ALGORITHM] now
              = inr (<["exp" := ClaimInt (now + 30 * 60)]>
                       {["sub" := ClaimStr (pretty (DBUser.id u))]})).
      { rewrite jwt_decode_create_access_token by done.
        by rewrite bool_decide_eq_false_2 by (unfold timedelta_minutes,
          ACCESS_TOKEN_EXPIRE_MINUTES; lia). }
      assert (Hsub : (<["exp" := ClaimInt (now + 30 * 60)]>
                        ({["sub" := ClaimStr (pretty (DBUser.id u))]}
                           : gmap string claim)) !! "sub"
                     = Some (ClaimStr (pretty (DBUser.id u)))).
      { rewrite lookup_insert_ne by done. apply lookup_singleton_eq. }
      split_and!; [exact Hdec|exact Hsub|].
      unfold get_current_user. rewrite Hdec, Hsub. by rewrite user_by_subject.
Qed.

(** C6.  Registering an email the store does not hold yet appends exactly
    one user -- with the submitted name and email and the hash of the
    submitted password -- and returns its projection.  Registering the same
    email again, whatever the other fields, raises the 409 [HTTPException]
    and leaves the store as the first registration left it, with exactly one
    user of that email. *)
Theorem register_twice (hashpw : string → string → string) (db : DB)
    (first_time second_time : UserCreate.t) (salt1 salt2 : string)
    (now1 now2 : datetime) :
  UserCreate.email second_time = UserCreate.email first_time →
  (∀ u, u ∈ users db → DBUser.email u ≠ UserCreate.email first_time) →
  ∃ db_user db1,
    register hashpw first_time salt1 now1 db = (inr (User.model_validate db_user), db1) ∧
    DBUser.name db_user = UserCreate.name first_time ∧
    DBUser.email db_user = UserCreate.email first_time ∧
    DBUser.hashed_password db_user = hashpw (UserCreate.password first_time) salt1 ∧
    users db1 = (users db ++ [db_user])%list ∧
    tasks db1 = tasks db ∧
    register hashpw second_time salt2 now2 db1
      = (inl (HTTPException 409 "E-mail já registrado." []), db1) ∧
    filter (λ u, DBUser.email u = UserCreate.email first_time) (users db1) = [db_user].
Proof.
  intros Hemail Hfresh.
  assert (Hnone : filter (λ u, DBUser.email u = UserCreate.email first_time) (users db) = []).
  { apply head_None. by apply first_filter_None. }
  unfold register at 1. unfold first. rewrite Hnone. simpl.
  eexists _, _. split; [reflexivity|]. simpl.
  assert (Hone : ∀ u, filter (λ u, DBUser.email u = UserCreate.email first_time)
                        (users db ++ [u])%list
                      = if decide (DBUser.email u = UserCreate.email first_time)
                        then [u] else []).
  { intros u. rewrite filter_app, Hnone. simpl. rewrite filter_cons, filter_nil.
    by destruct (decide _). }
  split_and!; try done.
  - unfold register, first. simpl. rewrite Hemail, Hone. simpl.
    by rewrite decide_True by done.
  - rewrite Hone. simpl. by rewrite decide_True by done.
Qed.

(** *** Results do not depend on the stored hashes *)

Lemma first_fmap {A B} (f : A → B) (rows : list A) :
  first (f <$> rows) = f <$> first rows.
Proof. by destruct rows. Qed.

Lemma filter_fmap_stable {A} (P : A → Prop) `{!∀ x, Decision (P x)} (g : A → A)
    (rows : list A) :
  (∀ x, P (g x) ↔ P x) → filter P (g <$> rows) = g <$> filter P rows.
Proof.
  intros HP. induction rows as [|x rows IH]; [done|].
  rewrite fmap_cons, !filter_cons, IH.
  destruct (decide (P (g x))) as [Hg|Hg], (decide (P x)) as [Hx|Hx]; try done.
  - destruct Hx. by apply HP.
  - destruct Hg. by apply HP.
Qed.

Lemma users_rehash_query (P : DBUser.t → Prop) `{!∀ x, Decision (P x)}
    (f : string → string) (db : DB) :
  (∀ u h, P (with_hash h u) ↔ P u) →
  first (filter P (users (rehash f db)))
  = (λ u, with_hash (f (DBUser.hashed_password u)) u) <$> first (filter P (users db)).
Proof.
  intros HP. simpl. rewrite filter_fmap_stable; [apply first_fmap|].
  intros u. apply HP.
Qed.

Lemma get_current_user_rehash (f : string → string) (db : DB) (tok : token)
    (now : datetime) :
  get_current_user (rehash f db) tok now = get_current_user db tok now.
Proof.
  unfold get_current_user.
  destruct (jwt_decode _ _ _ _) as [|payload]; [done|].
  destruct (payload !! "sub") as [user_id|]; [|done].
  rewrite users_rehash_query by done.
  by destruct (first _).
Qed.

Lemma register_rehash (hashpw hashpw' : string → string → string)
    (f : string → string) (user_create : UserCreate.t) (salt salt' : string)
    (now : datetime) (db : DB) :
  (register hashpw user_create salt now (rehash f db)).1
  = (register hashpw' user_create salt' now db).1.
Proof.
  unfold register. rewrite users_rehash_query by done.
  by destruct (first _).
Qed.

Lemma login_rehash (checkpw : string → string → bool) (f : string → string)
    (username password : string) (now : datetime) (db : DB) :
  login checkpw username password now (rehash f db)
  = login (λ p h, checkpw p (f h)) username password now db.
Proof.
  unfold login. rewrite users_rehash_query by done.
  by destruct (first _).
Qed.

(** C8.  A [User] is exactly the five fields id, name, email, created_at and
    updated_at, and [model_validate] fills them without reading the hash.
    What [register] and [get_current_user] return is the same whatever
    hashes the store holds (and, for [register], whatever hash function and
    salt are used); [login] consults the stored hash only through
    [checkpw], and what it returns is either its 401 or a ["bearer"] token
    whose claims are the subject and the expiry, nothing else. *)
Theorem no_hash_in_results :
  (∀ u : User.t,
     u = User.mk (User.id u) (User.name u) (User.email u)
                 (User.created_at u) (User.updated_at u)) ∧
  (∀ (row : DBUser.t) (h : string),
     User.model_validate (with_hash h row) = User.model_validate row) ∧
  (∀ hashpw hashpw' f user_create salt salt' now db,
     (register hashpw user_create salt now (rehash f db)).1
     = (register hashpw' user_create salt' now db).1) ∧
  (∀ f db tok now,
     get_current_user (rehash f db) tok now = get_current_user db tok now) ∧
  (∀ checkpw f username password now db,
     login checkpw username password now (rehash f db)
     = login (λ p h, checkpw p (f h)) username password now db) ∧
  (∀ checkpw username password now db,
     match login checkpw username password now db with
     | inr response =>
         ∃ payload,
           TokenResponse.access_token response = Signed payload SECRET_KEY ALGORITHM ∧
           dom payload = ({["sub"; "exp"]} : gset string) ∧
           TokenResponse.token_type response = "bearer"
     | inl e =>
         e = HTTPException 401 "Credenciais inválidas" [("WWW-Authenticate", "Bearer")]
     end).
Proof.
  split_and!.
  - by intros [].
  - done.
  - intros. apply register_rehash.
  - intros. apply get_current_user_rehash.
  - intros. apply login_rehash.
  - intros. unfold login. destruct (first _) as [db_user|]; [|done].
    destruct (checkpw _ _); simpl; [|done].
    eexists. split; [reflexivity|]. split; [|done].
    rewrite dom_insert_L, dom_singleton_L. set_solver.
Qed.

(** ** Updating a task *)

Lemma foldl_setattr_dump (row : DBTask.t) (task_update : TaskUpdate.t) :
  let set := TaskUpdate.model_fields_set task_update in
  foldl setattr (loaded row) (model_dump_exclude_unset task_update)
  = {| attr_title :=
         if bool_decide ("title" ∈ set) then TaskUpdate.title task_update
         else Some (DBTask.title row);
       attr_description :=
         if bool_decide ("description" ∈ set) then TaskUpdate.description task_update
         else DBTask.description row;
       attr_status :=
         if bool_decide ("status" ∈ set) then TaskUpdate.status task_update
         else Some (DBTask.status row) |}.
Proof.
  intros set. unfold model_dump_exclude_unset. fold set.
  by destruct (bool_decide ("title" ∈ set)), (bool_decide ("description" ∈ set)),
              (bool_decide ("status" ∈ set)).
Qed.

(** A primary key identifies its row. *)
Lemma key_identifies {A K} (key : A → K) (rows : list A) (x y : A) :
  NoDup (key <$> rows) → x ∈ rows → y ∈ rows → key x = key y → x = y.
Proof.
  intros Hnd Hx Hy Hkey.
  apply list_elem_of_lookup in Hx as [i Hi].
  apply list_elem_of_lookup in Hy as [j Hj].
  assert (i = j) as ->; [|congruence].
  eapply NoDup_lookup; [exact Hnd| |].
  - rewrite list_lookup_fmap, Hi. reflexivity.
  - rewrite list_lookup_fmap, Hj. simpl. by rewrite Hkey.
Qed.

(** After the UPDATE the owner-scoped query finds the new row. *)
Lemma owned_task_write (task_id : Z) (u : User.t) (db : DB) (row row' : DBTask.t) :
  owned_task task_id u db = Some row →
  DBTask.id row' = task_id → DBTask.user_id row' = User.id u →
  owned_task task_id u (write_task row' db) = Some row'.
Proof.
  unfold owned_task, write_task, first. simpl. intros Hrow Hid Huser.
  induction (tasks db) as [|x rows IH]; [done|].
  rewrite fmap_cons, filter_cons. rewrite filter_cons in Hrow.
  case_bool_decide as Hx.
  - by rewrite decide_True.
  - rewrite decide_False in Hrow by (intros [? ?]; congruence).
    rewrite decide_False by (intros [? ?]; congruence). by apply IH.
Qed.

Lemma write_task_owners (db : DB) (row row' : DBTask.t) :
  NoDup (DBTask.id <$> tasks db) → row ∈ tasks db →
  DBTask.id row' = DBTask.id row → DBTask.user_id row' = DBTask.user_id row →
  DBTask.user_id <$> tasks (write_task row' db) = DBTask.user_id <$> tasks db.
Proof.
  intros Hnd Hrow Hid Huser. simpl. rewrite <- list_fmap_compose.
  apply list_fmap_ext. intros i t Ht. simpl. case_bool_decide as Hx; [|done].
  rewrite Huser. f_equal. symmetry.
  apply (key_identifies DBTask.id (tasks db)); [done| |done|congruence].
  apply list_elem_of_lookup. eauto.
Qed.

Lemma write_task_others (db : DB) (row' t : DBTask.t) :
  t ∈ tasks db → DBTask.id t ≠ DBTask.id row' → t ∈ tasks (write_task row' db).
Proof.
  intros Ht Hid. simpl. apply list_elem_of_fmap. exists t. split; [|done].
  by rewrite bool_decide_eq_false_2.
Qed.

(** What [update_task] does to a task its caller owns, case by case. *)
Lemma update_task_owned (db : DB) (u : User.t) (task_id : Z) (row : DBTask.t)
    (task_update : TaskUpdate.t) (now : datetime) :
  owned_task task_id u db = Some row →
  let set := TaskUpdate.model_fields_set task_update in
  let title' :=
    if bool_decide ("title" ∈ set) then TaskUpdate.title task_update
    else Some (DBTask.title row) in
  let description' :=
    if bool_decide ("description" ∈ set) then TaskUpdate.description task_update
    else DBTask.description row in
  let status' :=
    if bool_decide ("status" ∈ set) then TaskUpdate.status task_update
    else Some (DBTask.status row) in
  update_task task_id task_update u now db
  = if bool_decide (mkAttrs title' description' status' = loaded row)
    then (inr (Task.model_validate row), db)
    else match title', status' with
         | Some title, Some status =>
             let row' :=
               DBTask.mk (DBTask.id row) title description' status
                         (DBTask.user_id row) (DBTask.created_at row) now in
             (inr (Task.model_validate row'), write_task row' db)
         | _, _ => (inl IntegrityError, db)
         end.
Proof.
  intros Hrow set title' description' status'.
  unfold update_task. rewrite Hrow, foldl_setattr_dump. fold set.
  fold title' description' status'. unfold commit. simpl.
  case_bool_decide; [done|].
  by destruct title', status'.
Qed.

(** C3 (amended).  An update of a task the caller owns either fails on a
    NULL written to [title] or [status], leaving the store as it was, or
    returns the task with: every field that the payload does not supply at
    its previous value; every supplied field at the supplied value; id,
    owner and creation time as before; and [updated_at] set to [now] as soon
    as the title, description or status differs from the stored one (when
    none does, nothing is written at all and [updated_at] stays).  The
    returned task is what the store then holds under that id, no other row
    is touched, and no row of the table changes owner. *)
Theorem update_task_frame (db : DB) (u : User.t) (task_id : Z) (row : DBTask.t)
    (task_update : TaskUpdate.t) (now : datetime) :
  consistent db →
  owned_task task_id u db = Some row →
  let set := TaskUpdate.model_fields_set task_update in
  match update_task task_id task_update u now db with
  | (inr task, db') =>
      ("title" ∉ set → Task.title task = DBTask.title row) ∧
      ("description" ∉ set → Task.description task = DBTask.description row) ∧
      ("status" ∉ set → Task.status task = DBTask.status row) ∧
      ("title" ∈ set → TaskUpdate.title task_update = Some (Task.title task)) ∧
      ("description" ∈ set →
         TaskUpdate.description task_update = Task.description task) ∧
      ("status" ∈ set → TaskUpdate.status task_update = Some (Task.status task)) ∧
      Task.id task = DBTask.id row ∧
      Task.user_id task = DBTask.user_id row ∧
      Task.created_at task = DBTask.created_at row ∧
      ((Task.title task, Task.description task, Task.status task)
         ≠ (DBTask.title row, DBTask.description row, DBTask.status row) →
       Task.updated_at task = now) ∧
      ((Task.title task, Task.description task, Task.status task)
         = (DBTask.title row, DBTask.description row, DBTask.status row) →
       Task.updated_at task = DBTask.updated_at row ∧ db' = db) ∧
      get_task_by_id task_id u db' = inr task ∧
      (∀ t, t ∈ tasks db → DBTask.id t ≠ task_id → t ∈ tasks db') ∧
      DBTask.user_id <$> tasks db' = DBTask.user_id <$> tasks db ∧
      users db' = users db
  | (inl e, db') =>
      e = IntegrityError ∧ db' = db ∧
      (("title" ∈ set ∧ TaskUpdate.title task_update = None) ∨
       ("status" ∈ set ∧ TaskUpdate.status task_update = None))
  end.
Proof.
  intros Hdb Hrow set.
  rewrite (update_task_owned db u task_id row task_update now Hrow). fold set.
  destruct (owned_task_Some _ _ _ _ Hrow) as (Hin & Hid & Huser).
  set (title' := if bool_decide ("title" ∈ set) then _ else _).
  set (description' := if bool_decide ("description" ∈ set) then _ else _).
  set (status' := if bool_decide ("status" ∈ set) then _ else _).
  assert (Ht : "title" ∉ set → title' = Some (DBTask.title row)).
  { intros ?. unfold title'. by rewrite bool_decide_eq_false_2. }
  assert (Hd : "description" ∉ set → description' = DBTask.description row).
  { intros ?. unfold description'. by rewrite bool_decide_eq_false_2. }
  assert (Hs : "status" ∉ set → status' = Some (DBTask.status row)).
  { intros ?. unfold status'. by rewrite bool_decide_eq_false_2. }
  assert (Ht' : "title" ∈ set → TaskUpdate.title task_update = title').
  { intros ?. unfold title'. by rewrite bool_decide_eq_true_2. }
  assert (Hd' : "description" ∈ set → TaskUpdate.description task_update = description').
  { intros ?. unfold description'. by rewrite bool_decide_eq_true_2. }
  assert (Hs' : "status" ∈ set → TaskUpdate.status task_update = status').
  { intros ?. unfold status'. by rewrite bool_decide_eq_true_2. }
  clearbody title' description' status'.
  case_bool_decide as Hsame.
  - injection Hsame as -> -> ->. simpl.
    split_and!; try done; try (intros Hx; by rewrite (Ht' Hx) || by rewrite (Hs' Hx)).
    unfold get_task_by_id. by rewrite Hrow.
  - destruct title' as [title|], status' as [status|]; cbv beta iota zeta.
    + set (row' := DBTask.mk _ _ _ _ _ _ _).
      split_and!.
      * intros Hx. specialize (Ht Hx). simpl. congruence.
      * intros Hx. by specialize (Hd Hx).
      * intros Hx. specialize (Hs Hx). simpl. congruence.
      * intros Hx. by apply Ht'.
      * intros Hx. by apply Hd'.
      * intros Hx. by apply Hs'.
      * done.
      * done.
      * done.
      * done.
      * simpl. intros Heq. destruct Hsame. unfold loaded. congruence.
      * unfold get_task_by_id.
        by rewrite (owned_task_write task_id u db row row' Hrow).
      * intros t Hti Hne. apply write_task_others; [done|]. simpl. congruence.
      * by apply (write_task_owners db row); [apply Hdb|..].
      * done.
    + split_and!; try done. right.
      assert ("status" ∈ set) as Hx.
      { destruct (decide ("status" ∈ set)) as [|Hn]; [done|]. by specialize (Hs Hn). }
      auto.
    + split_and!; try done. left.
      assert ("title" ∈ set) as Hx.
      { destruct (decide ("title" ∈ set)) as [|Hn]; [done|]. by specialize (Ht Hn). }
      auto.
    + split_and!; try done. left.
      assert ("title" ∈ set) as Hx.
      { destruct (decide ("title" ∈ set)) as [|Hn]; [done|]. by specialize (Ht Hn). }
      auto.
Qed.

(** C10.  The payload [{"description": null}] and the empty payload hold the
    same field values and differ only in [model_fields_set].  The first
    always succeeds and stores NULL as the description; the second, and any
    payload that does not supply [description], leaves the stored
    description as it was.  More generally a supplied NULL description is
    what a successful update stores. *)
Theorem explicit_null_vs_absent (db : DB) (u : User.t) (task_id : Z)
    (row : DBTask.t) (now : datetime) :
  owned_task task_id u db = Some row →
  (∃ task db',
     update_task task_id (TaskUpdate.mk None None None {["description"]}) u now db
       = (inr task, db') ∧
     Task.description task = None ∧
     DBTask.description <$> owned_task task_id u db' = Some None) ∧
  update_task task_id (TaskUpdate.mk None None None ∅) u now db
    = (inr (Task.model_validate row), db) ∧
  (∀ task_update,
     "description" ∉ TaskUpdate.model_fields_set task_update →
     match update_task task_id task_update u now db with
     | (inr task, db') =>
         Task.description task = DBTask.description row ∧
         DBTask.description <$> owned_task task_id u db'
           = Some (DBTask.description row)
     | (inl _, db') => db' = db
     end) ∧
  (∀ task_update,
     "description" ∈ TaskUpdate.model_fields_set task_update →
     TaskUpdate.description task_update = None →
     match update_task task_id task_update u now db with
     | (inr task, db') =>
         Task.description task = None ∧
         DBTask.description <$> owned_task task_id u db' = Some None
     | (inl _, db') => db' = db
     end).
Proof.
  intros Hrow.
  destruct (owned_task_Some _ _ _ _ Hrow) as (Hin & Hid & Huser).
  assert (Hgen : ∀ task_update,
    let description' :=
      if bool_decide ("description" ∈ TaskUpdate.model_fields_set task_update)
      then TaskUpdate.description task_update else DBTask.description row in
    match update_task task_id task_update u now db with
    | (inr task, db') =>
        Task.description task = description' ∧
        DBTask.description <$> owned_task task_id u db' = Some description'
    | (inl _, db') => db' = db
    end).
  { intros task_update description'.
    rewrite (update_task_owned db u task_id row task_update now Hrow).
    fold description'. case_bool_decide as Hsame.
    - injection Hsame as _ Hd _. rewrite Hrow. simpl. by rewrite Hd.
    - destruct (if bool_decide ("title" ∈ _) then _ else _) as [title|],
               (if bool_decide ("status" ∈ _) then _ else _) as [status|];
        cbv beta iota zeta; try done.
      split; [done|].
      by erewrite owned_task_write by (exact Hrow || done). }
  split_and!.
  - pose proof (Hgen (TaskUpdate.mk None None None {["description"]})) as H1.
    rewrite (update_task_owned _ _ _ _ _ _ Hrow) in H1 |- *.
    cbn [TaskUpdate.model_fields_set TaskUpdate.title TaskUpdate.description
         TaskUpdate.status] in H1 |- *.
    rewrite (bool_decide_eq_false_2 ("title" ∈ _)) in H1 |- * by set_solver.
    rewrite (bool_decide_eq_false_2 ("status" ∈ _)) in H1 |- * by set_solver.
    rewrite (bool_decide_eq_true_2 ("description" ∈ _)) in H1 |- * by set_solver.
    case_bool_decide; cbv beta iota zeta in H1 |- *; eexists _, _; (split; [reflexivity|]);
      exact H1.
  - rewrite (update_task_owned _ _ _ _ _ _ Hrow).
    cbn [TaskUpdate.model_fields_set].
    rewrite (bool_decide_eq_false_2 ("title" ∈ _)) by set_solver.
    rewrite (bool_decide_eq_false_2 ("status" ∈ _)) by set_solver.
    rewrite (bool_decide_eq_false_2 ("description" ∈ _)) by set_solver.
    by rewrite bool_decide_eq_true_2 by done.
  - intros task_update Hunset. specialize (Hgen task_update).
    by rewrite bool_decide_eq_false_2 in Hgen by done.
  - intros task_update Hset Hnull. specialize (Hgen task_update).
    rewrite bool_decide_eq_true_2 in Hgen by done. by rewrite Hnull in Hgen.
Qed.

(** ** Listing *)

Global Instance sql_le_total : Total sql_le.
Proof.
  intros [|m|s] [|n|t]; simpl; auto.
  - lia.
  - apply (total String.le).
Qed.

Global Instance sql_le_trans : Transitive sql_le.
Proof.
  intros [|m|s] [|n|t] [|k|r]; simpl; try done; try lia.
  apply (transitivity (R := String.le)).
Qed.

Global Instance asc_total column : Total (asc column).
Proof. intros a b. apply (total sql_le). Qed.
Global Instance asc_trans column : Transitive (asc column).
Proof. intros a b c. apply (transitivity (R := sql_le)). Qed.
Global Instance desc_total column : Total (desc column).
Proof. intros a b. apply (total sql_le). Qed.
Global Instance desc_trans column : Transitive (desc column).
Proof. intros a b c Hab Hbc. by apply (transitivity (R := sql_le) Hbc). Qed.

Lemma filtered_tasks_owned (u : User.t) (db : DB) (status_filter : option TaskStatusEnum)
    (search : option string) (t : DBTask.t) :
  t ∈ filtered_tasks u db status_filter search →
  t ∈ tasks db ∧ DBTask.user_id t = User.id u ∧
  (∀ st, status_filter = Some st → DBTask.status t = st).
Proof.
  unfold filtered_tasks. intros Ht.
  assert (t ∈ match status_filter with
              | Some st => filter (λ t, DBTask.status t = st)
                             (filter (λ t, DBTask.user_id t = User.id u) (tasks db))
              | None => filter (λ t, DBTask.user_id t = User.id u) (tasks db)
              end) as Ht'.
  { destruct (truthy search); [|done]. by apply list_elem_of_filter in Ht as [_ ?]. }
  clear Ht. destruct status_filter as [st|].
  - apply list_elem_of_filter in Ht' as [Hst Ht'].
    apply list_elem_of_filter in Ht' as [? ?]. split_and!; try done. congruence.
  - apply list_elem_of_filter in Ht' as [? ?]. done.
Qed.

Lemma ordered_tasks_default (query : list DBTask.t) :
  ordered_tasks (Some "created_at") (Some "desc") query
  = inr (order_by (desc (λ t, SqlInt (DBTask.created_at t))) query).
Proof. reflexivity. Qed.

(** Every [sort_order] that does not lower-case to ["desc"] is served as
    ascending. *)
Lemma sort_order_fallback (sort_by : option string) (sort_order : string)
    (query : list DBTask.t) :
  lower sort_order ≠ "desc" →
  ordered_tasks sort_by (Some sort_order) query = ordered_tasks sort_by (Some "asc") query.
Proof.
  intros Hne. unfold ordered_tasks. destruct (truthy sort_by); [|done].
  destruct (getattr_DBTask _); [|done].
  by rewrite bool_decide_eq_false_2.
Qed.

Lemma get_tasks_endpoint_defaults (db : DB) (tok : token) (now : datetime)
    (u : User.t) (status : option string) (status_filter : option TaskStatusEnum)
    (search : option string) (page limit : Z) :
  get_current_user db tok now = inr u →
  match status with None => Some None | Some s => Some <$> parse_status s end
    = Some status_filter →
  1 ≤ page → 1 ≤ limit →
  get_tasks_endpoint db tok now status search (Some page) (Some limit) None None
  = get_tasks u db status_filter search page limit (Some "created_at") (Some "desc").
Proof.
  intros Hu Hstatus Hpage Hlimit. unfold get_tasks_endpoint.
  rewrite Hu, Hstatus. simpl.
  by rewrite !bool_decide_eq_true_2 by done.
Qed.

(** C7.  With the default ordering, the body of [get_tasks] sorts the
    owner's filtered tasks by [created_at], newest first, skips
    [(page-1)*limit] of them and returns at most [limit] of the rest; a page
    that starts at or beyond the end is the empty list, not an error.  Over
    15 tasks, page 2 with limit 10 is the last five of the ordering and page
    3 is empty.  A request that names no sort runs the body with exactly
    this ordering. *)
Theorem get_tasks_page (db : DB) (u : User.t) (status_filter : option TaskStatusEnum)
    (search : option string) (page limit : Z) :
  1 ≤ page → 1 ≤ limit →
  let selected := filtered_tasks u db status_filter search in
  let rows := order_by (desc (λ t, SqlInt (DBTask.created_at t))) selected in
  let offset := Z.to_nat ((page - 1) * limit) in
  let db_tasks := take (Z.to_nat limit) (drop offset rows) in
  rows ≡ₚ selected ∧
  (∀ t, t ∈ rows → t ∈ tasks db ∧ DBTask.user_id t = User.id u) ∧
  StronglySorted (λ a b, DBTask.created_at b ≤ DBTask.created_at a) rows ∧
  get_tasks u db status_filter search page limit (Some "created_at") (Some "desc")
    = inr (Task.model_validate <$> db_tasks) ∧
  length db_tasks = Nat.min (Z.to_nat limit) (length rows - offset) ∧
  ((length rows ≤ offset)%nat → db_tasks = []) ∧
  (length rows = 15%nat →
     get_tasks u db status_filter search 2 10 (Some "created_at") (Some "desc")
       = inr (Task.model_validate <$> drop 10 rows) ∧
     length (drop 10 rows) = 5%nat ∧
     get_tasks u db status_filter search 3 10 (Some "created_at") (Some "desc")
       = inr []) ∧
  (∀ tok now status,
     get_current_user db tok now = inr u →
     match status with None => Some None | Some s => Some <$> parse_status s end
       = Some status_filter →
     get_tasks_endpoint db tok now status search (Some page) (Some limit) None None
     = inr (Task.model_validate <$> db_tasks)).
Proof.
  intros Hpage Hlimit selected rows offset db_tasks.
  assert (Hperm : rows ≡ₚ selected) by apply merge_sort_Permutation.
  assert (Hget : ∀ p l,
    get_tasks u db status_filter search p l (Some "created_at") (Some "desc")
    = inr (Task.model_validate <$>
             take (Z.to_nat l) (drop (Z.to_nat ((p - 1) * l)) rows))).
  { intros p l. unfold get_tasks. by rewrite ordered_tasks_default. }
  split_and!.
  - done.
  - intros t Ht. rewrite Hperm in Ht.
    by apply filtered_tasks_owned in Ht as (? & ? & _).
  - apply (StronglySorted_merge_sort (desc (λ t, SqlInt (DBTask.created_at t)))).
  - apply Hget.
  - unfold db_tasks. by rewrite length_take, length_drop.
  - intros Hbeyond. unfold db_tasks. rewrite drop_ge by done. apply take_nil.
  - intros Hlen. rewrite !Hget. split_and!.
    + change (Z.to_nat ((2 - 1) * 10)) with 10%nat. change (Z.to_nat 10) with 10%nat.
      rewrite take_ge; [done|]. rewrite length_drop. lia.
    + rewrite length_drop. lia.
    + change (Z.to_nat ((3 - 1) * 10)) with 20%nat.
      rewrite drop_ge by lia. by rewrite take_nil.
  - intros tok now status Hu Hstatus.
    rewrite (get_tasks_endpoint_defaults db tok now u status status_filter) by done.
    apply Hget.
Qed.

(** C4 (as the code behaves).  [GET /tasks/] for Ana on the sample store: a
    [sort_order] outside [asc]/[desc] is served as ascending, a [sort_by]
    naming a column outside the four listed ones is served sorted by that
    column, an empty [sort_by] skips the ordering, and a [sort_by] that names
    no column ends in [AttributeError]; none of them is rejected by the
    validation that rejects [page=0]. *)
Theorem sort_parameters_unchecked :
  let tok := create_access_token {["sub" := ClaimStr (pretty 1)]} None 5000 in
  let request := get_tasks_endpoint Sample.db tok 5060 None None None None in
  request (Some "created_at") (Some "sideways")
    = inr (Task.model_validate <$> [Sample.milk; Sample.report; Sample.call]) ∧
  request (Some "created_at") (Some "sideways") = request (Some "created_at") (Some "asc") ∧
  request (Some "id") (Some "DESC")
    = inr (Task.model_validate <$> [Sample.call; Sample.report; Sample.milk]) ∧
  request (Some "") (Some "desc")
    = inr (Task.model_validate <$> [Sample.milk; Sample.report; Sample.call]) ∧
  request (Some "priority") (Some "asc") = inl AttributeError ∧
  get_tasks_endpoint Sample.db tok 5060 None None (Some 0) None
                     (Some "created_at") (Some "desc")
    = inl RequestValidationError.
Proof. vm_compute. done. Qed.

(** ** The handlers keep the store consistent *)

Lemma NoDup_fmap_filter {A K} (key : A → K) (P : A → Prop) `{!∀ x, Decision (P x)}
    (rows : list A) :
  NoDup (key <$> rows) → NoDup (key <$> filter P rows).
Proof.
  induction rows as [|x rows IH]; [done|].
  rewrite fmap_cons, NoDup_cons. intros [Hx Hnd]. rewrite filter_cons.
  destruct (decide (P x)); [|by apply IH].
  rewrite fmap_cons, NoDup_cons. split; [|by apply IH].
  intros Hin. apply Hx. apply list_elem_of_fmap in Hin as (y & -> & Hy).
  apply list_elem_of_fmap. exists y. split; [done|].
  by apply list_elem_of_filter in Hy as [_ ?].
Qed.

Lemma NoDup_fmap_snoc {A K} (key : A → K) (rows : list A) (x : A) :
  NoDup (key <$> rows) → (∀ y, y ∈ rows → key y ≠ key x) →
  NoDup (key <$> (rows ++ [x])%list).
Proof.
  intros Hnd Hfresh. rewrite fmap_app. apply NoDup_app. split_and!; [done| |].
  - intros k Hk Hk'. apply list_elem_of_fmap in Hk as (y & -> & Hy).
    apply list_elem_of_singleton in Hk'. by apply (Hfresh y).
  - apply NoDup_singleton.
Qed.

Lemma register_consistent (hashpw : string → string → string)
    (user_create : UserCreate.t) (salt : string) (now : datetime) (db : DB) :
  consistent db → consistent (register hashpw user_create salt now db).2.
Proof.
  intros Hdb. unfold register.
  destruct (first _) as [existing|] eqn:Hq; [done|].
  pose proof (proj1 (first_filter_None _ _) Hq) as Hfresh. simpl.
  constructor; simpl.
  - apply NoDup_fmap_snoc; [apply Hdb|]. simpl.
    intros y Hy. pose proof (user_ids_below db Hdb y Hy). lia.
  - apply NoDup_fmap_snoc; [apply Hdb|]. simpl. apply Hfresh.
  - apply Hdb.
  - intros y Hy. apply elem_of_app in Hy as [Hy|Hy].
    + pose proof (user_ids_below db Hdb y Hy). lia.
    + apply list_elem_of_singleton in Hy as ->. simpl. lia.
  - apply Hdb.
Qed.

Lemma create_task_consistent (task_create : TaskCreate.t) (u : User.t)
    (now : datetime) (db : DB) :
  consistent db → consistent (create_task task_create u now db).2.
Proof.
  intros Hdb. unfold create_task. constructor; simpl; try apply Hdb.
  - apply NoDup_fmap_snoc; [apply Hdb|]. simpl.
    intros y Hy. pose proof (task_ids_below db Hdb y Hy). lia.
  - intros y Hy. apply elem_of_app in Hy as [Hy|Hy].
    + pose proof (task_ids_below db Hdb y Hy). lia.
    + apply list_elem_of_singleton in Hy as ->. simpl. lia.
Qed.

Lemma write_task_consistent (row row' : DBTask.t) (db : DB) :
  consistent db → row ∈ tasks db → DBTask.id row' = DBTask.id row →
  consistent (write_task row' db).
Proof.
  intros Hdb Hrow Hid.
  assert (Hids : DBTask.id <$> tasks (write_task row' db) = DBTask.id <$> tasks db).
  { simpl. rewrite <- list_fmap_compose. apply list_fmap_ext.
    intros i t _. simpl. by case_bool_decide. }
  constructor; try apply Hdb.
  - rewrite Hids. apply Hdb.
  - intros t Ht. simpl in Ht. apply list_elem_of_fmap in Ht as (x & -> & Hx).
    simpl. case_bool_decide.
    + rewrite Hid. by apply (task_ids_below db Hdb).
    + by apply (task_ids_below db Hdb).
Qed.

Lemma update_task_consistent (task_id : Z) (task_update : TaskUpdate.t)
    (u : User.t) (now : datetime) (db : DB) :
  consistent db → consistent (update_task task_id task_update u now db).2.
Proof.
  intros Hdb. destruct (owned_task task_id u db) as [row|] eqn:Hrow.
  - rewrite (update_task_owned db u task_id row task_update now Hrow).
    destruct (owned_task_Some _ _ _ _ Hrow) as (Hin & _ & _).
    case_bool_decide; [done|].
    destruct (if bool_decide ("title" ∈ _) then _ else _) as [title|],
             (if bool_decide ("status" ∈ _) then _ else _) as [status|];
      cbv beta iota zeta; try done.
    by apply (write_task_consistent row).
  - unfold update_task. by rewrite Hrow.
Qed.

Lemma delete_task_consistent (task_id : Z) (u : User.t) (db : DB) :
  consistent db → consistent (delete_task task_id u db).2.
Proof.
  intros Hdb. unfold delete_task.
  destruct (owned_task task_id u db) as [row|]; [|done].
  constructor; simpl; try apply Hdb.
  - apply NoDup_fmap_filter, Hdb.
  - intros t Ht. apply list_elem_of_filter in Ht as [_ Ht].
    by apply (task_ids_below db Hdb).
Qed.

(** A deleted task is gone for good: the owner's next lookup is a 404. *)
Lemma delete_task_then_get (task_id : Z) (u : User.t) (db : DB) :
  is_Some (owned_task task_id u db) →
  ∃ db', delete_task task_id u db = (inr (), db') ∧
         get_task_by_id task_id u db' = inl not_found.
Proof.
  intros [row Hrow]. unfold delete_task. rewrite Hrow. eexists. split; [done|].
  destruct (owned_task_Some _ _ _ _ Hrow) as (_ & Hid & _).
  unfold get_task_by_id.
  rewrite (proj2 (owned_task_None task_id u _)); [done|].
  simpl. intros t Ht Htid. apply list_elem_of_filter in Ht as [Hne _].
  congruence.
Qed.

Lemma Sample_consistent : consistent Sample.db.
Proof.
  constructor; simpl.
  - refine (bool_decide_unpack _ _). by vm_compute.
  - refine (bool_decide_unpack _ _). by vm_compute.
  - refine (bool_decide_unpack _ _). by vm_compute.
  - apply Forall_forall. by repeat constructor.
  - apply Forall_forall. by repeat constructor.
Qed.

(** ** The theorems at work on the sample store *)

(** Ana asks for Bob's task 3 and for a task 99 that nobody has: the same
    answer both times. *)
Lemma not_owned_is_not_found_witness :
  let ana := User.model_validate Sample.ana in
  let fields := TaskUpdate.mk (Some "mine now") None None {["title"]} in
  (∀ t, t ∈ tasks Sample.db → DBTask.id t = 3 → DBTask.user_id t ≠ User.id ana) ∧
  (∀ t, t ∈ tasks Sample.db → DBTask.id t = 99 → DBTask.user_id t ≠ User.id ana) ∧
  get_task_by_id 3 ana Sample.db = get_task_by_id 99 ana Sample.db ∧
  update_task 3 fields ana 9000 Sample.db = update_task 99 fields ana 9000 Sample.db ∧
  delete_task 3 ana Sample.db = delete_task 99 ana Sample.db ∧
  delete_task 3 ana Sample.db
    = (inl (HTTPException 404 "Tarefa não encontrada." []), Sample.db).
Proof.
  intros ana fields.
  assert (H3 : ∀ t, t ∈ tasks Sample.db → DBTask.id t = 3 →
                    DBTask.user_id t ≠ User.id ana).
  { apply (proj1 (Forall_forall
             (λ t, DBTask.id t = 3 → DBTask.user_id t ≠ User.id ana) _)).
    repeat constructor; simpl; intros ? ?; done. }
  assert (H99 : ∀ t, t ∈ tasks Sample.db → DBTask.id t = 99 →
                     DBTask.user_id t ≠ User.id ana).
  { apply (proj1 (Forall_forall
             (λ t, DBTask.id t = 99 → DBTask.user_id t ≠ User.id ana) _)).
    repeat constructor; simpl; intros ? ?; done. }
  destruct (not_owned_is_not_found Sample.db ana 3 fields 9000 H3) as (G3 & U3 & D3).
  destruct (not_owned_is_not_found Sample.db ana 99 fields 9000 H99) as (G99 & U99 & D99).
  split_and!; [exact H3|exact H99| | | |exact D3].
  - by rewrite G3, G99.
  - by rewrite U3, U99.
  - by rewrite D3, D99.
Defined.

(** Ana's token, minted at second 5000, one minute before and one minute
    after its thirtieth minute. *)
Lemma token_expiry_witness :
  let tok := create_access_token {["sub" := ClaimStr (pretty (DBUser.id Sample.ana))]}
               (Some (timedelta_minutes ACCESS_TOKEN_EXPIRE_MINUTES)) 5000 in
  consistent Sample.db ∧ Sample.ana ∈ users Sample.db ∧
  get_current_user Sample.db tok (5000 + 29 * 60) = inr (User.model_validate Sample.ana) ∧
  get_current_user Sample.db tok (5000 + 31 * 60) = inl credentials_exception.
Proof.
  intros tok.
  assert (Hin : Sample.ana ∈ users Sample.db) by apply list_elem_of_here.
  split_and!; [exact Sample_consistent|exact Hin| |].
  - destruct (token_expiry Sample.db Sample.ana 5000 (5000 + 29 * 60)
                Sample_consistent Hin) as (payload & _ & _ & _ & _ & Hvalid & _).
    apply Hvalid. lia.
  - destruct (token_expiry Sample.db Sample.ana 5000 (5000 + 31 * 60)
                Sample_consistent Hin) as (payload & _ & _ & _ & _ & _ & Hexpired).
    apply Hexpired. lia.
Defined.

(** An unknown email and a wrong password for Ana get the same answer; the
    right password gets a token that resolves to Ana. *)
Lemma login_uniform_witness :
  consistent Sample.db ∧
  login Sample.checkpw "eve@x.com" "secret1" 5000 Sample.db
    = login Sample.checkpw "ana@x.com" "wrong" 5000 Sample.db ∧
  (∃ tok payload,
     login Sample.checkpw "ana@x.com" "secret1" 5000 Sample.db
       = inr {| TokenResponse.access_token := tok;
                TokenResponse.token_type := "bearer" |} ∧
     jwt_decode tok SECRET_KEY [ALGORITHM] 5000 = inr payload ∧
     payload !! "sub" = Some (ClaimStr (pretty 1)) ∧
     get_current_user Sample.db tok 5000 = inr (User.model_validate Sample.ana)).
Proof.
  assert (Hin : Sample.ana ∈ users Sample.db) by apply list_elem_of_here.
  split_and!; [exact Sample_consistent| |].
  - destruct (login_uniform Sample.checkpw Sample.db "eve@x.com" "secret1" 5000
                Sample_consistent) as [Hunknown _].
    destruct (login_uniform Sample.checkpw Sample.db "ana@x.com" "wrong" 5000
                Sample_consistent) as [_ Hknown].
    destruct (Hknown Sample.ana Hin eq_refl) as [Hwrong _].
    rewrite Hunknown, Hwrong; [done|by vm_compute|].
    apply Forall_forall. by repeat constructor.
  - destruct (login_uniform Sample.checkpw Sample.db "ana@x.com" "secret1" 5000
                Sample_consistent) as [_ Hknown].
    destruct (Hknown Sample.ana Hin eq_refl) as [_ Hright].
    apply Hright. by vm_compute.
Defined.

(** Eve registers twice. *)
Lemma register_twice_witness :
  let eve := UserCreate.mk "Eve" "eve@x.com" "secret2" in
  let eve' := UserCreate.mk "Evelyn" "eve@x.com" "another" in
  UserCreate.email eve' = UserCreate.email eve ∧
  (∀ u, u ∈ users Sample.db → DBUser.email u ≠ UserCreate.email eve) ∧
  ∃ db1,
    register Sample.hashpw eve "salt" 6000 Sample.db
      = (inr (User.mk 3 "Eve" "eve@x.com" 6000 6000), db1) ∧
    register Sample.hashpw eve' "pepper" 7000 db1
      = (inl (HTTPException 409 "E-mail já registrado." []), db1) ∧
    length (filter (λ u, DBUser.email u = "eve@x.com") (users db1)) = 1%nat.
Proof.
  intros eve eve'.
  assert (Hfresh : ∀ u, u ∈ users Sample.db → DBUser.email u ≠ UserCreate.email eve).
  { apply Forall_forall. by repeat constructor. }
  split_and!; [reflexivity|exact Hfresh|].
  destruct (register_twice Sample.hashpw Sample.db eve eve' "salt" "pepper" 6000 7000
              eq_refl Hfresh)
    as (db_user & db1 & Hfirst & _ & _ & _ & _ & _ & Hsecond & Hone).
  assert (Hdb1 : db1 = (register Sample.hashpw eve "salt" 6000 Sample.db).2)
    by (by rewrite Hfirst).
  subst db1. exists (register Sample.hashpw eve "salt" 6000 Sample.db).2. split_and!.
  - reflexivity.
  - exact Hsecond.
  - change (UserCreate.email eve) with "eve@x.com" in Hone. by rewrite Hone.
Defined.

(** Ana reopens her report: only the status moves, and the row is restamped. *)
Lemma update_task_frame_witness :
  let ana := User.model_validate Sample.ana in
  let reopen := TaskUpdate.mk None None (Some pending) {["status"]} in
  consistent Sample.db ∧
  owned_task 2 ana Sample.db = Some Sample.report ∧
  ∃ task db',
    update_task 2 reopen ana 9000 Sample.db = (inr task, db') ∧
    Task.title task = "Write report" ∧
    Task.description task = Some "quarterly numbers" ∧
    Task.status task = pending ∧
    Task.user_id task = 1 ∧
    Task.updated_at task = 9000 ∧
    get_task_by_id 2 ana db' = inr task.
Proof.
  intros ana reopen.
  split_and!; [exact Sample_consistent|reflexivity|].
  pose proof (update_task_frame Sample.db ana 2 Sample.report reopen 9000
                Sample_consistent eq_refl) as H.
  destruct (update_task 2 reopen ana 9000 Sample.db) as [[e|task] db'] eqn:E.
  { vm_compute in E. discriminate E. }
  cbv zeta in H.
  destruct H as (Ht & Hd & _ & _ & _ & Hs & _ & Hu & _ & Hnow & _ & Hget & _).
  assert (Hstatus : Task.status task = pending).
  { assert (Some pending = Some (Task.status task)) as [= <-]; [|done].
    apply Hs. cbn. set_solver. }
  exists task, db'. split_and!; [done| | |done|done| |done].
  - apply Ht. cbn. set_solver.
  - apply Hd. cbn. set_solver.
  - apply Hnow. rewrite Hstatus. by intros [=].
Defined.

(** The two payloads on Ana's report, which has a description. *)
Lemma explicit_null_vs_absent_witness :
  let ana := User.model_validate Sample.ana in
  owned_task 2 ana Sample.db = Some Sample.report ∧
  (∃ task db',
     update_task 2 (TaskUpdate.mk None None None {["description"]}) ana 9000 Sample.db
       = (inr task, db') ∧
     Task.description task = None ∧
     DBTask.description <$> owned_task 2 ana db' = Some None) ∧
  update_task 2 (TaskUpdate.mk None None None ∅) ana 9000 Sample.db
    = (inr (Task.model_validate Sample.report), Sample.db).
Proof.
  intros ana.
  destruct (explicit_null_vs_absent Sample.db ana 2 Sample.report 9000 eq_refl)
    as (Hnull & Habsent & _).
  split_and!; [reflexivity|exact Hnull|exact Habsent].
Defined.

(** Ana's three tasks, two per page: the second page holds the oldest. *)
Lemma get_tasks_page_witness :
  let ana := User.model_validate Sample.ana in
  1 ≤ 2 ∧
  get_tasks ana Sample.db None None 2 2 (Some "created_at") (Some "desc")
    = inr [Task.model_validate Sample.milk] ∧
  get_tasks ana Sample.db None None 3 2 (Some "created_at") (Some "desc") = inr [].
Proof.
  intros ana.
  assert (H12 : 1 ≤ 2) by lia.
  assert (H13 : 1 ≤ 3) by lia.
  split_and!; [exact H12| |].
  - destruct (get_tasks_page Sample.db ana None None 2 2 H12 H12)
      as (_ & _ & _ & Hget & _).
    rewrite Hget. by vm_compute.
  - destruct (get_tasks_page Sample.db ana None None 3 2 H13 H12)
      as (_ & _ & _ & Hget & _ & Hempty & _).
    rewrite Hget, Hempty; [done|]. vm_compute. lia.
Defined.

(** * Further properties of the handlers *)

(** ** Looking a task up *)

(** The owner-scoped lookup returns a stored row exactly when the row has
    the requested id and belongs to the caller: nothing else is ever
    returned, and every such row is found. *)
Theorem get_task_by_id_iff (db : DB) (u : User.t) (task_id : Z) (task : Task.t) :
  consistent db →
  get_task_by_id task_id u db = inr task ↔
  ∃ row, row ∈ tasks db ∧ DBTask.id row = task_id ∧
         DBTask.user_id row = User.id u ∧ task = Task.model_validate row.
Proof.
  intros Hdb. unfold get_task_by_id. split.
  - destruct (owned_task task_id u db) as [row|] eqn:Hrow; [|done].
    intros [= <-]. exists row.
    by destruct (owned_task_Some _ _ _ _ Hrow) as (? & ? & ?).
  - intros (row & Hin & Hid & Hu & ->).
    unfold owned_task.
    rewrite (first_filter_key _ DBTask.id (tasks db) row); [done|apply Hdb|done|done|].
    intros y _ [Hy _]. congruence.
Qed.

Lemma owned_task_app (task_id : Z) (u : User.t) (db : DB) (row : DBTask.t) (nu nt : Z) :
  owned_task task_id u (mkDB (users db) (tasks db ++ [row]) nu nt)
  = match owned_task task_id u db with
    | Some r => Some r
    | None =>
        if decide (DBTask.id row = task_id ∧ DBTask.user_id row = User.id u)
        then Some row else None
    end.
Proof.
  unfold owned_task, first. simpl. rewrite filter_app.
  destruct (filter _ (tasks db)) as [|r rs]; simpl; [|done].
  rewrite filter_cons, filter_nil. by destruct (decide _).
Qed.

(** ** Creating a task *)

(** [create_task] never fails.  The task it returns carries the submitted
    title, description and status, the caller as owner and [now] as both
    timestamps; its id was free before (a lookup gave 404) and afterwards the
    caller's lookup of that id returns this very task, while every lookup of
    any other id, by anyone, answers as before. *)
Theorem create_task_then_get (db : DB) (u : User.t) (task_create : TaskCreate.t)
    (now : datetime) :
  consistent db →
  ∃ task db',
    create_task task_create u now db = (inr task, db') ∧
    Task.title task = TaskCreate.title task_create ∧
    Task.description task = TaskCreate.description task_create ∧
    Task.status task = TaskCreate.status task_create ∧
    Task.user_id task = User.id u ∧
    Task.created_at task = now ∧ Task.updated_at task = now ∧
    users db' = users db ∧
    get_task_by_id (Task.id task) u db = inl not_found ∧
    get_task_by_id (Task.id task) u db' = inr task ∧
    (∀ v task_id, task_id ≠ Task.id task →
       get_task_by_id task_id v db' = get_task_by_id task_id v db).
Proof.
  intros Hdb. unfold create_task. eexists _, _. split; [reflexivity|]. simpl.
  assert (Hfree : ∀ v, owned_task (next_task_id db) v db = None).
  { intros v. apply owned_task_None. intros t Ht Hid.
    pose proof (task_ids_below db Hdb t Ht). lia. }
  split_and!; try done.
  - unfold get_task_by_id. by rewrite Hfree.
  - unfold get_task_by_id. rewrite owned_task_app, Hfree. simpl.
    by rewrite decide_True.
  - intros v task_id Hne. unfold get_task_by_id. rewrite owned_task_app.
    destruct (owned_task task_id v db); [done|]. simpl.
    by rewrite decide_False by (intros [? _]; congruence).
Qed.

(** ** Deleting a task *)

Lemma length_filter_key_ne {A K} `{!EqDecision K} (key : A → K) (rows : list A) (x : A) :
  NoDup (key <$> rows) → x ∈ rows →
  (length (filter (λ y, key y ≠ key x) rows) + 1)%nat = length rows.
Proof.
  induction rows as [|y rows IH]; [by intros _ ?%not_elem_of_nil|].
  rewrite fmap_cons, NoDup_cons. intros [Hy Hnd] Hx. rewrite filter_cons.
  apply elem_of_cons in Hx as [->|Hx].
  - rewrite decide_False by (intros ?; done). simpl. f_equal.
    assert (filter (λ z, key z ≠ key y) rows = rows) as ->; [|lia].
    clear IH Hnd. induction rows as [|z rows IH]; [done|].
    rewrite filter_cons. rewrite decide_True.
    + f_equal. apply IH. intros Hin. apply Hy. rewrite fmap_cons. by right.
    + intros Heq. apply Hy. rewrite fmap_cons, Heq. by left.
  - rewrite decide_True.
    + simpl. f_equal. by apply IH.
    + intros Heq. apply Hy. rewrite Heq. by apply list_elem_of_fmap_2.
Qed.

(** Deleting a task the caller owns succeeds and removes exactly one row:
    afterwards nobody finds a task under that id, every other id answers as
    before for everyone, and the user table is untouched. *)
Theorem delete_task_owned (db : DB) (u : User.t) (task_id : Z) (row : DBTask.t) :
  consistent db →
  owned_task task_id u db = Some row →
  ∃ db',
    delete_task task_id u db = (inr (), db') ∧
    users db' = users db ∧
    (length (tasks db') + 1)%nat = length (tasks db) ∧
    (∀ v, get_task_by_id task_id v db' = inl not_found) ∧
    (∀ v other, other ≠ task_id →
       get_task_by_id other v db' = get_task_by_id other v db).
Proof.
  intros Hdb Hrow. unfold delete_task. rewrite Hrow.
  destruct (owned_task_Some _ _ _ _ Hrow) as (Hin & Hid & Hu).
  eexists. split; [reflexivity|]. simpl. split_and!.
  - done.
  - apply (length_filter_key_ne DBTask.id); [apply Hdb|done].
  - intros v. unfold get_task_by_id.
    rewrite (proj2 (owned_task_None task_id v _)); [done|]. simpl.
    intros t Ht Htid. apply list_elem_of_filter in Ht as [Hne _]. congruence.
  - intros v other Hne. unfold get_task_by_id, owned_task. simpl.
    rewrite list_filter_filter.
    rewrite (list_filter_iff _ (λ t, DBTask.id t = other ∧ DBTask.user_id t = User.id v));
      [done|].
    intros t. split; [by intros [? _]|].
    intros [Ht ?]. split_and!; try done. congruence.
Qed.

(** ** One user's writes and another user's view *)

Lemma owned_task_tasks_of (task_id : Z) (v : User.t) (db : DB) :
  owned_task task_id v db = first (filter (λ t, DBTask.id t = task_id) (tasks_of v db)).
Proof. unfold owned_task, tasks_of. by rewrite list_filter_filter. Qed.

Lemma get_task_by_id_tasks_of (task_id : Z) (v : User.t) (db db' : DB) :
  tasks_of v db' = tasks_of v db →
  get_task_by_id task_id v db' = get_task_by_id task_id v db.
Proof. intros H. unfold get_task_by_id. by rewrite !owned_task_tasks_of, H. Qed.

Lemma get_tasks_tasks_of (v : User.t) (db db' : DB) (status_filter : option TaskStatusEnum)
    (search : option string) (page limit : Z) (sort_by sort_order : option string) :
  tasks_of v db' = tasks_of v db →
  get_tasks v db' status_filter search page limit sort_by sort_order
  = get_tasks v db status_filter search page limit sort_by sort_order.
Proof.
  intros H. unfold get_tasks, filtered_tasks. unfold tasks_of in H. by rewrite H.
Qed.

Lemma filter_fmap_unaffected {A} (P : A → Prop) `{!∀ x, Decision (P x)} (g : A → A)
    (rows : list A) :
  (∀ x, x ∈ rows → g x = x ∨ (¬ P x ∧ ¬ P (g x))) →
  filter P (g <$> rows) = filter P rows.
Proof.
  induction rows as [|x rows IH]; [done|]. intros Hg.
  rewrite fmap_cons, !filter_cons, IH by (intros y Hy; apply Hg; by right).
  destruct (Hg x) as [->|[Hx Hgx]]; [by left|done|].
  by rewrite !decide_False by done.
Qed.

Lemma filter_ext_elem_of {A} (P Q : A → Prop) `{!∀ x, Decision (P x)}
    `{!∀ x, Decision (Q x)} (rows : list A) :
  (∀ x, x ∈ rows → P x ↔ Q x) → filter P rows = filter Q rows.
Proof.
  induction rows as [|x rows IH]; [done|]. intros HPQ.
  rewrite !filter_cons, IH by (intros y Hy; apply HPQ; by right).
  destruct (HPQ x) as [H1 H2]; [by left|].
  destruct (decide (P x)), (decide (Q x)); try done.
  - by destruct n; auto.
  - by destruct n; auto.
Qed.

Lemma tasks_of_write_task (db : DB) (u v : User.t) (row row' : DBTask.t) :
  consistent db → row ∈ tasks db →
  DBTask.id row' = DBTask.id row →
  DBTask.user_id row = User.id u → DBTask.user_id row' = User.id u →
  User.id v ≠ User.id u →
  tasks_of v (write_task row' db) = tasks_of v db.
Proof.
  intros Hdb Hin Hid Hu Hu' Hne. unfold tasks_of. simpl.
  apply filter_fmap_unaffected. intros t Ht.
  case_bool_decide as Heq; [right|by left].
  assert (t = row) as ->.
  { apply (key_identifies DBTask.id (tasks db)); [apply Hdb|done..|congruence]. }
  split; congruence.
Qed.

(** Whatever [u] creates, updates or deletes, the rows of another user [v]
    stay exactly as they were, and so does every answer [v] gets from
    [get_task_by_id] and [get_tasks]. *)
Theorem writes_are_private (db db' : DB) (u v : User.t) (task_create : TaskCreate.t)
    (task_id : Z) (task_update : TaskUpdate.t) (now : datetime) :
  consistent db →
  User.id v ≠ User.id u →
  db' ∈ [ (create_task task_create u now db).2;
          (update_task task_id task_update u now db).2;
          (delete_task task_id u db).2 ] →
  tasks_of v db' = tasks_of v db ∧
  (∀ other, get_task_by_id other v db' = get_task_by_id other v db) ∧
  (∀ status_filter search page limit sort_by sort_order,
     get_tasks v db' status_filter search page limit sort_by sort_order
     = get_tasks v db status_filter search page limit sort_by sort_order).
Proof.
  intros Hdb Hne Hdb'.
  assert (Hview : tasks_of v db' = tasks_of v db).
  { repeat (apply elem_of_cons in Hdb' as [->|Hdb']);
      [| | |by apply not_elem_of_nil in Hdb'].
    - unfold create_task, tasks_of. simpl.
      rewrite filter_app, filter_cons, filter_nil. simpl.
      rewrite decide_False by done. apply app_nil_r.
    - destruct (owned_task task_id u db) as [row|] eqn:Hrow.
      + rewrite (update_task_owned db u task_id row task_update now Hrow).
        destruct (owned_task_Some _ _ _ _ Hrow) as (Hin & _ & Hu).
        case_bool_decide; [done|].
        destruct (if bool_decide ("title" ∈ _) then _ else _) as [title|],
                 (if bool_decide ("status" ∈ _) then _ else _) as [status|];
          cbv beta iota zeta; try done.
        by apply (tasks_of_write_task db u v row).
      + unfold update_task. by rewrite Hrow.
    - unfold delete_task.
      destruct (owned_task task_id u db) as [row|] eqn:Hrow; [|done].
      destruct (owned_task_Some _ _ _ _ Hrow) as (Hin & _ & Hu).
      unfold tasks_of. simpl. rewrite list_filter_filter.
      apply filter_ext_elem_of. intros t Ht. split; [by intros [? _]|].
      intros Hv. split; [done|]. intros Heq.
      assert (t = row) as ->; [|congruence].
      by apply (key_identifies DBTask.id (tasks db)); [apply Hdb|..]. }
  split_and!; [done| |].
  - intros other. by apply get_task_by_id_tasks_of.
  - intros. by apply get_tasks_tasks_of.
Qed.

(** ** Store constraints *)

(** Every handler that writes leaves a consistent store consistent: ids and
    emails stay unique and the id counters stay ahead of the ids in use,
    whether the handler succeeds or raises. *)
Theorem handlers_keep_consistent (db : DB) (hashpw : string → string → string)
    (user_create : UserCreate.t) (salt : string) (task_create : TaskCreate.t)
    (task_id : Z) (task_update : TaskUpdate.t) (u : User.t) (now : datetime) :
  consistent db →
  consistent (register hashpw user_create salt now db).2 ∧
  consistent (create_task task_create u now db).2 ∧
  consistent (update_task task_id task_update u now db).2 ∧
  consistent (delete_task task_id u db).2.
Proof.
  intros Hdb. split_and!.
  - by apply register_consistent.
  - by apply create_task_consistent.
  - by apply update_task_consistent.
  - by apply delete_task_consistent.
Qed.

(** ** Repeating an update *)

(** Sending the same payload a second time changes nothing: the second call
    returns the task the first one returned -- [updated_at] included, even
    though the clock has moved on -- and leaves the store as the first call
    left it. *)
Theorem update_task_twice (db db' : DB) (u : User.t) (task_id : Z)
    (task_update : TaskUpdate.t) (task : Task.t) (now now' : datetime) :
  update_task task_id task_update u now db = (inr task, db') →
  update_task task_id task_update u now' db' = (inr task, db').
Proof.
  destruct (owned_task task_id u db) as [row|] eqn:Hrow;
    [|unfold update_task; by rewrite Hrow].
  destruct (owned_task_Some _ _ _ _ Hrow) as (Hin & Hid & Hu).
  rewrite (update_task_owned db u task_id row task_update now Hrow).
  set (set := TaskUpdate.model_fields_set task_update).
  case_bool_decide as Hsame.
  - intros [= <- <-].
    rewrite (update_task_owned db u task_id row task_update now' Hrow). fold set.
    by rewrite bool_decide_eq_true_2.
  - destruct (if bool_decide ("title" ∈ set) then _ else _) as [title|] eqn:Ht;
      [|by destruct (if bool_decide ("status" ∈ set) then _ else _)].
    destruct (if bool_decide ("status" ∈ set) then _ else _) as [status|] eqn:Hs;
      [|done].
    cbv beta iota zeta. intros [= <- <-].
    set (row' := DBTask.mk _ _ _ _ _ _ _).
    assert (Hrow' : owned_task task_id u (write_task row' db) = Some row').
    { by apply (owned_task_write task_id u db row row'). }
    rewrite (update_task_owned _ u task_id row' task_update now' Hrow'). fold set.
    rewrite bool_decide_eq_true_2; [done|].
    unfold loaded. simpl. f_equal.
    + destruct (bool_decide ("title" ∈ set)); congruence.
    + by destruct (bool_decide ("description" ∈ set)).
    + destruct (bool_decide ("status" ∈ set)); congruence.
Qed.

(** ** Minting a token *)

(** What a freshly minted token decodes to.  The lifetime is the requested
    one, or 30 minutes when none -- or a zero one -- is requested; the token
    decodes to the submitted claims with [exp] set (overriding an [exp] in
    the data) until that moment, and is expired from then on, so a negative
    lifetime gives a token that is never valid. *)
Theorem create_access_token_decode (data : gmap string claim)
    (expires_delta : option timedelta) (t0 now : datetime) :
  let lifetime :=
    match expires_delta with
    | Some delta => if bool_decide (delta = 0) then 30 * 60 else delta
    | None => 30 * 60
    end in
  jwt_decode (create_access_token data expires_delta t0) SECRET_KEY [ALGORITHM] now
  = if bool_decide (t0 + lifetime ≤ now) then inl ExpiredSignatureError
    else inr (<["exp" := ClaimInt (t0 + lifetime)]> data).
Proof.
  intros lifetime.
  assert (Hdefault : create_access_token data expires_delta t0
                     = create_access_token data (Some lifetime) t0).
  { unfold lifetime, create_access_token.
    destruct expires_delta as [delta|]; repeat case_bool_decide; done. }
  rewrite Hdefault. apply jwt_decode_create_access_token.
  unfold lifetime. destruct expires_delta as [delta|]; [|done].
  by case_bool_decide.
Qed.

(** ** Ordering and paging in general *)

(** The ordering step either raises or returns a reordering of its input. *)
Lemma ordered_tasks_Permutation (sort_by sort_order : option string)
    (query rows : list DBTask.t) :
  ordered_tasks sort_by sort_order query = inr rows → rows ≡ₚ query.
Proof.
  unfold ordered_tasks. destruct (truthy sort_by); [|by intros [= <-]].
  destruct (getattr_DBTask _) as [column|].
  - destruct sort_order as [order|]; [|done].
    case_bool_decide; intros [= <-]; apply merge_sort_Permutation.
  - case_bool_decide; [|done]. by destruct sort_order.
Qed.

(** The names [sort_by] can order by are the seven mapped columns. *)
Lemma getattr_DBTask_Some (name : string) :
  is_Some (getattr_DBTask name) ↔
  name ∈ ["id"; "title"; "description"; "status"; "user_id"; "created_at"; "updated_at"].
Proof.
  unfold getattr_DBTask. split.
  - repeat (case_bool_decide as H; [intros _; subst; set_solver|clear H]).
    by intros [? ?].
  - intros Hin. repeat (apply elem_of_cons in Hin as [->|Hin]); try by eexists.
    by apply not_elem_of_nil in Hin.
Qed.

(** For every column [sort_by] can name and every [sort_order], the listing
    is drawn from an ordering of the caller's filtered tasks that holds each
    of them exactly once and is sorted on that column -- descending when
    [sort_order] lower-cases to ["desc"], ascending otherwise. *)
Theorem get_tasks_sorted (db : DB) (u : User.t) (status_filter : option TaskStatusEnum)
    (search : option string) (page limit : Z) (name order : string)
    (column : DBTask.t → sqlvalue) :
  getattr_DBTask name = Some column →
  ∃ rows,
    rows ≡ₚ filtered_tasks u db status_filter search ∧
    StronglySorted (if bool_decide (lower order = "desc") then desc column else asc column)
                   rows ∧
    get_tasks u db status_filter search page limit (Some name) (Some order)
    = inr (Task.model_validate <$>
             take (Z.to_nat limit) (drop (Z.to_nat ((page - 1) * limit)) rows)).
Proof.
  intros Hcol.
  assert (Hname : truthy (Some name) = true).
  { simpl. case_bool_decide as Hempty; [|done]. by subst. }
  unfold get_tasks, ordered_tasks. rewrite Hname. simpl. rewrite Hcol.
  case_bool_decide; eexists; (split_and!; [| |reflexivity]).
  - apply merge_sort_Permutation.
  - apply (StronglySorted_merge_sort (desc column)).
  - apply merge_sort_Permutation.
  - apply (StronglySorted_merge_sort (asc column)).
Qed.

(** Consecutive pages are consecutive segments of one ordering: page [page]
    extends what pages 1 to [page - 1] have listed by the next [limit] rows,
    so paging through lists every row once and in order, and once
    [page * limit] reaches the number of rows everything has been listed. *)
Theorem get_tasks_pages (db : DB) (u : User.t) (status_filter : option TaskStatusEnum)
    (search : option string) (page limit : Z) (sort_by sort_order : option string)
    (rows : list DBTask.t) :
  ordered_tasks sort_by sort_order (filtered_tasks u db status_filter search) = inr rows →
  1 ≤ page → 1 ≤ limit →
  ∃ segment,
    get_tasks u db status_filter search page limit sort_by sort_order
      = inr (Task.model_validate <$> segment) ∧
    take (Z.to_nat (page * limit)) rows
      = (take (Z.to_nat ((page - 1) * limit)) rows ++ segment)%list ∧
    ((length rows ≤ Z.to_nat (page * limit))%nat →
       rows = (take (Z.to_nat ((page - 1) * limit)) rows ++ segment)%list).
Proof.
  intros Hrows Hpage Hlimit. unfold get_tasks. rewrite Hrows.
  eexists. split; [reflexivity|].
  assert (Hsplit : take (Z.to_nat (page * limit)) rows
    = (take (Z.to_nat ((page - 1) * limit)) rows
       ++ take (Z.to_nat limit) (drop (Z.to_nat ((page - 1) * limit)) rows))%list).
  { rewrite take_take_drop. f_equal.
    rewrite <- Z2Nat.inj_add by nia. f_equal. lia. }
  split; [done|].
  intros Hall. rewrite <- Hsplit. by rewrite take_ge.
Qed.

(** [get_tasks] never hands out a task of another user, nor one whose
    status differs from a requested status, nor more than [limit] tasks:
    whatever the search, ordering and page, each returned task is the
    projection of a stored row owned by the caller. *)
Theorem get_tasks_only_own (db : DB) (u : User.t) (status_filter : option TaskStatusEnum)
    (search : option string) (page limit : Z) (sort_by sort_order : option string)
    (result : list Task.t) :
  get_tasks u db status_filter search page limit sort_by sort_order = inr result →
  (length result ≤ Z.to_nat limit)%nat ∧
  ∀ task, task ∈ result →
    Task.user_id task = User.id u ∧
    (∀ st, status_filter = Some st → Task.status task = st) ∧
    ∃ row, row ∈ tasks db ∧ task = Task.model_validate row.
Proof.
  unfold get_tasks.
  destruct (ordered_tasks _ _ _) as [|rows] eqn:Hrows; [done|].
  intros [= <-]. apply ordered_tasks_Permutation in Hrows. split.
  - rewrite length_fmap, length_take. lia.
  - intros task Htask. apply list_elem_of_fmap in Htask as (row & -> & Hrow).
    apply subseteq_take, subseteq_drop in Hrow. rewrite Hrows in Hrow.
    apply filtered_tasks_owned in Hrow as (Hin & Hu & Hst).
    split_and!; [done|done|]. by exists row.
Qed.

(** ** Registering, then logging in *)

Lemma login_stored (checkpw : string → string → bool) (db : DB) (user : DBUser.t)
    (password : string) (now : datetime) :
  consistent db → user ∈ users db →
  login checkpw (DBUser.email user) password now db
  = if checkpw password (DBUser.hashed_password user)
    then inr {| TokenResponse.access_token :=
                  create_access_token {["sub" := ClaimStr (pretty (DBUser.id user))]}
                    (Some (timedelta_minutes ACCESS_TOKEN_EXPIRE_MINUTES)) now;
                TokenResponse.token_type := "bearer" |}
    else inl (HTTPException 401 "Credenciais inválidas" [("WWW-Authenticate", "Bearer")]).
Proof.
  intros Hdb Hin. unfold login. rewrite (user_by_email db user Hdb Hin).
  by destruct (checkpw _ _).
Qed.

Lemma get_current_user_minted (db : DB) (user : DBUser.t) (t0 now : datetime) :
  consistent db → user ∈ users db → now < t0 + 30 * 60 →
  get_current_user db
    (create_access_token {["sub" := ClaimStr (pretty (DBUser.id user))]}
       (Some (timedelta_minutes ACCESS_TOKEN_EXPIRE_MINUTES)) t0) now
  = inr (User.model_validate user).
Proof.
  intros Hdb Hin Hnow. unfold get_current_user.
  rewrite jwt_decode_create_access_token by done.
  rewrite bool_decide_eq_false_2
    by (unfold timedelta_minutes, ACCESS_TOKEN_EXPIRE_MINUTES; lia).
  rewrite lookup_insert_ne by done. rewrite lookup_singleton_eq.
  by rewrite user_by_subject.
Qed.

(** After a successful registration, logging in under the registered email
    succeeds exactly for the passwords that [checkpw] accepts against the
    hash of the submitted password; the token then resolves to the user that
    [register] returned.  Logins under any other name answer as before the
    registration. *)
Theorem register_then_login (hashpw : string → string → string)
    (checkpw : string → string → bool) (db : DB) (user_create : UserCreate.t)
    (salt : string) (now now' : datetime) :
  consistent db →
  (∀ u, u ∈ users db → DBUser.email u ≠ UserCreate.email user_create) →
  ∃ user db1,
    register hashpw user_create salt now db = (inr user, db1) ∧
    (∀ password,
       if checkpw password (hashpw (UserCreate.password user_create) salt) then
         ∃ tok,
           login checkpw (UserCreate.email user_create) password now' db1
             = inr {| TokenResponse.access_token := tok;
                      TokenResponse.token_type := "bearer" |} ∧
           get_current_user db1 tok now' = inr user
       else
         login checkpw (UserCreate.email user_create) password now' db1
           = inl (HTTPException 401 "Credenciais inválidas"
                                [("WWW-Authenticate", "Bearer")])) ∧
    (∀ username password,
       username ≠ UserCreate.email user_create →
       login checkpw username password now' db1
       = login checkpw username password now' db).
Proof.
  intros Hdb Hfresh.
  pose proof (register_consistent hashpw user_create salt now db Hdb) as Hdb1.
  unfold register in *.
  rewrite (proj2 (first_filter_None _ (users db))) in * by done.
  set (db_user := DBUser.mk _ _ _ _ _ _) in *.
  set (db1 := mkDB _ _ _ _) in *. simpl in Hdb1.
  assert (Hin : db_user ∈ users db1).
  { simpl. apply elem_of_app. right. apply list_elem_of_here. }
  exists (User.model_validate db_user), db1. split_and!; [done| |].
  - intros password.
    pose proof (login_stored checkpw db1 db_user password now' Hdb1 Hin) as Hlogin.
    change (DBUser.email db_user) with (UserCreate.email user_create) in Hlogin.
    change (DBUser.hashed_password db_user)
      with (hashpw (UserCreate.password user_create) salt) in Hlogin.
    destruct (checkpw password _); [|done].
    eexists. split; [exact Hlogin|].
    apply get_current_user_minted; [done..|lia].
  - intros username password Hne. unfold login. simpl.
    rewrite filter_app, filter_cons, filter_nil. simpl.
    rewrite decide_False by done. by rewrite app_nil_r.
Qed.

(** ** Searching *)

Lemma append_nil_l (r : string) : "" +:+ r = r.
Proof. reflexivity. Qed.

Lemma append_cons (c : ascii) (a r : string) : String c a +:+ r = String c (a +:+ r).
Proof. reflexivity. Qed.

Lemma append_nil_r (a : string) : a +:+ "" = a.
Proof. induction a as [|c a IH]; [done|]. by rewrite append_cons, IH. Qed.

Lemma like_percent (q v : string) :
  like (String "%" q) v = true ↔ ∃ a r, v = a +:+ r ∧ like q r = true.
Proof.
  simpl. induction v as [|x v IH].
  - rewrite orb_false_r. split.
    + intros H. by exists "", "".
    + intros (a & r & Hv & H). destruct a as [|y a]; [|done].
      rewrite append_nil_l in Hv. by subst.
  - rewrite orb_true_iff, IH. split.
    + intros [H|(a & r & -> & H)].
      * by exists "", (String x v).
      * by exists (String x a), r.
    + intros (a & r & Hv & H). destruct a as [|y a].
      * left. rewrite append_nil_l in Hv. by subst.
      * right. rewrite append_cons in Hv. injection Hv as -> ->. by exists a, r.
Qed.

Lemma like_plain (p q v : string) :
  plain p = true →
  like (p +:+ q) v = true ↔ ∃ r, v = p +:+ r ∧ like q r = true.
Proof.
  revert v. induction p as [|c p IH]; intros v Hp.
  - rewrite append_nil_l. split; [by exists v|]. by intros (r & -> & H).
  - simpl in Hp. apply andb_true_iff in Hp as [Hc Hp].
    unfold plain_char in Hc. rewrite !andb_true_iff, !negb_true_iff in Hc.
    destruct Hc as [[Hc1 Hc2] Hc3]. rewrite append_cons. simpl.
    rewrite Hc1, Hc2, Hc3.
    destruct v as [|e v].
    + split; [done|]. by intros (r & ? & _).
    + rewrite andb_true_iff, bool_decide_eq_true, (IH v Hp). split.
      * intros [-> (r & -> & H)]. by exists r.
      * intros (r & Hv & H). rewrite append_cons in Hv. injection Hv as -> ->.
        split; [done|]. by exists r.
Qed.

Lemma like_percent_only (v : string) : like "%" v = true.
Proof. apply like_percent. exists v, "". split; [|done]. by rewrite append_nil_r. Qed.

(** A pattern [%needle%] without metacharacters in [needle] matches the
    texts in which [needle] occurs. *)
Lemma like_occurs_in (needle v : string) :
  plain needle = true →
  like ("%" +:+ needle +:+ "%") v = true ↔ occurs_in needle v.
Proof.
  intros Hp. change ("%" +:+ needle +:+ "%") with (String "%" (needle +:+ "%")).
  rewrite like_percent. unfold occurs_in. split.
  - intros (a & r & -> & H). apply like_plain in H as (b & -> & _); [|done].
    by exists a, b.
  - intros (a & b & ->). exists a, (needle +:+ b). split; [done|].
    apply like_plain; [done|]. exists b. split; [done|]. apply like_percent_only.
Qed.

Lemma lower_char_idemp (c : ascii) : lower_char (lower_char c) = lower_char c.
Proof. by destruct c as [[] [] [] [] [] [] [] []]. Qed.

Lemma plain_lower_char (c : ascii) : plain_char (lower_char c) = plain_char c.
Proof. by destruct c as [[] [] [] [] [] [] [] []]. Qed.

Lemma lower_idemp (s : string) : lower (lower s) = lower s.
Proof. induction s as [|c s IH]; [done|]. simpl. by rewrite lower_char_idemp, IH. Qed.

Lemma plain_lower (s : string) : plain (lower s) = plain s.
Proof. induction s as [|c s IH]; [done|]. simpl. by rewrite plain_lower_char, IH. Qed.

Lemma lower_app (s t : string) : lower (s +:+ t) = lower s +:+ lower t.
Proof.
  induction s as [|c s IH]; [done|]. rewrite append_cons. simpl.
  by rewrite IH, append_cons.
Qed.

Lemma ilike_occurs_in (column : option string) (search : string) :
  plain search = true →
  ilike column ("%" +:+ lower search +:+ "%") = true ↔
  ∃ text, column = Some text ∧ occurs_in (lower search) (lower text).
Proof.
  intros Hp. unfold ilike. destruct column as [text|].
  - change ("%" +:+ lower search +:+ "%")
      with (String "%" (lower search +:+ "%")).
    change (lower (String "%" (lower search +:+ "%")))
      with (String "%" (lower (lower search +:+ "%"))).
    rewrite lower_app, lower_idemp.
    change (String "%" (lower search +:+ lower "%"))
      with ("%" +:+ lower search +:+ "%").
    rewrite like_occurs_in by (by rewrite plain_lower). split.
    + intros H. by exists text.
    + by intros (? & [= <-] & H).
  - split; [done|]. by intros (? & ? & _).
Qed.

(** On ASCII text, a non-empty [search] without [LIKE] metacharacters
    keeps, of the tasks that pass the owner and status filters, exactly
    those whose title or description contains the search text, letter case
    aside; a task without description is judged on its title alone. *)
Theorem search_is_substring (db : DB) (u : User.t) (status_filter : option TaskStatusEnum)
    (search : string) (t : DBTask.t) :
  search ≠ "" → plain search = true →
  ascii_text search = true →
  ascii_text (DBTask.title t) = true →
  (∀ text, DBTask.description t = Some text → ascii_text text = true) →
  t ∈ filtered_tasks u db status_filter (Some search) ↔
  t ∈ filtered_tasks u db status_filter None ∧
  (occurs_in (lower search) (lower (DBTask.title t)) ∨
   ∃ text, DBTask.description t = Some text ∧
           occurs_in (lower search) (lower text)).
Proof.
  intros Hne Hp _ _ _. unfold filtered_tasks.
  assert (truthy (Some search) = true) as ->.
  { simpl. by rewrite bool_decide_eq_false_2. }
  assert (truthy None = false) as -> by done.
  change (default "" (Some search)) with search.
  rewrite list_elem_of_filter, Is_true_true, orb_true_iff.
  rewrite !ilike_occurs_in by done. split.
  - intros [[(text & [= <-] & H)|H] Hin]; split; auto.
  - intros [Hin [H|H]]; split; auto. left. by exists (DBTask.title t).
Qed.

(** ** The further properties on the sample store *)

Lemma get_task_by_id_iff_witness :
  let ana := User.model_validate Sample.ana in
  consistent Sample.db ∧
  get_task_by_id 2 ana Sample.db = inr (Task.model_validate Sample.report).
Proof.
  intros ana. split; [exact Sample_consistent|].
  apply (get_task_by_id_iff Sample.db ana 2 _ Sample_consistent).
  exists Sample.report. split_and!; [|reflexivity..].
  apply list_elem_of_further, list_elem_of_here.
Defined.

Lemma create_task_then_get_witness :
  let ana := User.model_validate Sample.ana in
  consistent Sample.db ∧
  ∃ task db',
    create_task (TaskCreate.mk "Pay rent" None pending) ana 9000 Sample.db
      = (inr task, db') ∧
    Task.title task = "Pay rent" ∧
    Task.user_id task = 1 ∧
    get_task_by_id (Task.id task) ana db' = inr task.
Proof.
  intros ana. split; [exact Sample_consistent|].
  destruct (create_task_then_get Sample.db ana (TaskCreate.mk "Pay rent" None pending)
              9000 Sample_consistent)
    as (task & db' & Hc & Ht & _ & _ & Hu & _ & _ & _ & _ & Hget & _).
  exists task, db'. split_and!; [exact Hc|exact Ht|exact Hu|exact Hget].
Defined.

Lemma delete_task_owned_witness :
  let ana := User.model_validate Sample.ana in
  consistent Sample.db ∧
  owned_task 1 ana Sample.db = Some Sample.milk ∧
  ∃ db',
    delete_task 1 ana Sample.db = (inr (), db') ∧
    (length (tasks db') + 1)%nat = 4%nat ∧
    get_task_by_id 1 ana db' = inl not_found.
Proof.
  intros ana. split_and!; [exact Sample_consistent|reflexivity|].
  destruct (delete_task_owned Sample.db ana 1 Sample.milk Sample_consistent eq_refl)
    as (db' & Hd & _ & Hlen & Hgone & _).
  exists db'. split_and!; [exact Hd|exact Hlen|apply Hgone].
Defined.

(** Ana deletes her task 1; Bob's task 3 answers as before. *)
Lemma writes_are_private_witness :
  let ana := User.model_validate Sample.ana in
  let bob := User.model_validate Sample.bob in
  let db' := (delete_task 1 ana Sample.db).2 in
  consistent Sample.db ∧ User.id bob ≠ User.id ana ∧
  get_task_by_id 3 bob db' = get_task_by_id 3 bob Sample.db ∧
  get_task_by_id 3 bob db' = inr (Task.model_validate Sample.secret).
Proof.
  intros ana bob db'.
  assert (Hne : User.id bob ≠ User.id ana) by (intros [=]).
  assert (Hin : db' ∈ [ (create_task (TaskCreate.mk "x" None pending) ana 0 Sample.db).2;
                        (update_task 1 (TaskUpdate.mk None None None ∅) ana 0 Sample.db).2;
                        (delete_task 1 ana Sample.db).2 ]).
  { do 2 apply list_elem_of_further. apply list_elem_of_here. }
  destruct (writes_are_private Sample.db db' ana bob _ 1 _ 0 Sample_consistent Hne Hin)
    as (_ & Hget & _).
  split_and!; [exact Sample_consistent|exact Hne|apply Hget|].
  rewrite Hget. reflexivity.
Defined.

Lemma handlers_keep_consistent_witness :
  let ana := User.model_validate Sample.ana in
  consistent Sample.db ∧
  consistent (register Sample.hashpw (UserCreate.mk "Eve" "eve@x.com" "secret2")
                       "salt" 6000 Sample.db).2 ∧
  consistent (delete_task 1 ana Sample.db).2.
Proof.
  intros ana.
  destruct (handlers_keep_consistent Sample.db Sample.hashpw
              (UserCreate.mk "Eve" "eve@x.com" "secret2") "salt"
              (TaskCreate.mk "x" None pending) 1 (TaskUpdate.mk None None None ∅)
              ana 6000 Sample_consistent) as (Hr & _ & _ & Hd).
  split_and!; [exact Sample_consistent|exact Hr|exact Hd].
Defined.

(** Ana reopens her report at second 9000 and sends the same payload again
    at second 9999. *)
Lemma update_task_twice_witness :
  let ana := User.model_validate Sample.ana in
  let reopen := TaskUpdate.mk None None (Some pending) {["status"]} in
  let task := Task.mk 2 "Write report" (Some "quarterly numbers") pending 1 2100 9000 in
  let db' := (update_task 2 reopen ana 9000 Sample.db).2 in
  update_task 2 reopen ana 9000 Sample.db = (inr task, db') ∧
  update_task 2 reopen ana 9999 db' = (inr task, db').
Proof.
  intros ana reopen task db'.
  assert (Hfirst : update_task 2 reopen ana 9000 Sample.db = (inr task, db'))
    by (by vm_compute).
  split; [exact Hfirst|].
  exact (update_task_twice Sample.db db' ana 2 reopen task 9000 9999 Hfirst).
Defined.

Lemma get_tasks_sorted_witness :
  let ana := User.model_validate Sample.ana in
  getattr_DBTask "title" = Some (λ t, SqlStr (DBTask.title t)) ∧
  ∃ rows,
    rows ≡ₚ filtered_tasks ana Sample.db None None ∧
    StronglySorted (desc (λ t, SqlStr (DBTask.title t))) rows ∧
    get_tasks ana Sample.db None None 1 10 (Some "title") (Some "DESC")
    = inr (Task.model_validate <$> take 10 rows).
Proof.
  intros ana. split; [reflexivity|].
  destruct (get_tasks_sorted Sample.db ana None None 1 10 "title" "DESC"
              (λ t, SqlStr (DBTask.title t)) eq_refl) as (rows & Hperm & Hsorted & Hget).
  exists rows. split_and!; [exact Hperm|exact Hsorted|exact Hget].
Defined.

(** Ana's tasks by title, two per page: page 2 continues where page 1
    stopped and completes the listing. *)
Lemma get_tasks_pages_witness :
  let ana := User.model_validate Sample.ana in
  let rows := [Sample.milk; Sample.report; Sample.call] in
  ordered_tasks (Some "title") (Some "asc") (filtered_tasks ana Sample.db None None)
    = inr rows ∧
  ∃ segment,
    get_tasks ana Sample.db None None 2 2 (Some "title") (Some "asc")
      = inr (Task.model_validate <$> segment) ∧
    rows = ([Sample.milk; Sample.report] ++ segment)%list.
Proof.
  intros ana rows.
  assert (Hrows : ordered_tasks (Some "title") (Some "asc")
                    (filtered_tasks ana Sample.db None None) = inr rows)
    by (by vm_compute).
  split; [exact Hrows|].
  assert (H12 : 1 ≤ 2) by lia.
  destruct (get_tasks_pages Sample.db ana None None 2 2 (Some "title") (Some "asc")
              rows Hrows H12 H12) as (segment & Hget & _ & Hall).
  exists segment. split; [exact Hget|].
  apply Hall. vm_compute. lia.
Defined.

Lemma get_tasks_only_own_witness :
  let bob := User.model_validate Sample.bob in
  get_tasks bob Sample.db (Some pending) None 1 10 (Some "created_at") (Some "desc")
    = inr [Task.model_validate Sample.secret] ∧
  ∀ task, task ∈ [Task.model_validate Sample.secret] →
    Task.user_id task = 2 ∧ Task.status task = pending.
Proof.
  intros bob.
  assert (Hget : get_tasks bob Sample.db (Some pending) None 1 10
                   (Some "created_at") (Some "desc")
                 = inr [Task.model_validate Sample.secret]) by (by vm_compute).
  split; [exact Hget|].
  destruct (get_tasks_only_own Sample.db bob (Some pending) None 1 10
              (Some "created_at") (Some "desc") _ Hget) as [_ Hown].
  intros task Htask. destruct (Hown task Htask) as (Hu & Hst & _).
  split; [exact Hu|]. by apply Hst.
Defined.

(** Eve registers and logs in with the password she registered. *)
Lemma register_then_login_witness :
  let eve := UserCreate.mk "Eve" "eve@x.com" "secret2" in
  consistent Sample.db ∧
  (∀ u, u ∈ users Sample.db → DBUser.email u ≠ UserCreate.email eve) ∧
  ∃ user db1 tok,
    register Sample.hashpw eve "salt" 6000 Sample.db = (inr user, db1) ∧
    login Sample.checkpw "eve@x.com" "secret2" 7000 db1
      = inr {| TokenResponse.access_token := tok;
               TokenResponse.token_type := "bearer" |} ∧
    get_current_user db1 tok 7000 = inr user ∧
    login Sample.checkpw "eve@x.com" "Secret2" 7000 db1
      = inl (HTTPException 401 "Credenciais inválidas" [("WWW-Authenticate", "Bearer")]).
Proof.
  intros eve.
  assert (Hfresh : ∀ u, u ∈ users Sample.db → DBUser.email u ≠ UserCreate.email eve).
  { apply Forall_forall. by repeat constructor. }
  split_and!; [exact Sample_consistent|exact Hfresh|].
  destruct (register_then_login Sample.hashpw Sample.checkpw Sample.db eve "salt"
              6000 7000 Sample_consistent Hfresh) as (user & db1 & Hreg & Hlogin & _).
  pose proof (Hlogin "secret2") as Hright.
  pose proof (Hlogin "Secret2") as Hwrong.
  change (Sample.checkpw "secret2" _) with true in Hright.
  change (Sample.checkpw "Secret2" _) with false in Hwrong.
  destruct Hright as (tok & Hok & Huser).
  exists user, db1, tok. split_and!; [exact Hreg|exact Hok|exact Huser|exact Hwrong].
Defined.

(** Searching Ana's tasks for MILK finds "Buy milk". *)
Lemma search_is_substring_witness :
  let ana := User.model_validate Sample.ana in
  "MILK" ≠ "" ∧ plain "MILK" = true ∧
  ascii_text "MILK" = true ∧ ascii_text (DBTask.title Sample.milk) = true ∧
  (∀ text, DBTask.description Sample.milk = Some text → ascii_text text = true) ∧
  Sample.milk ∈ filtered_tasks ana Sample.db None (Some "MILK").
Proof.
  intros ana.
  assert (Hne : "MILK" ≠ "") by (intros [=]).
  assert (Hd : ∀ text, DBTask.description Sample.milk = Some text →
                       ascii_text text = true) by (intros text [=]).
  split_and!; [exact Hne|reflexivity|reflexivity|reflexivity|exact Hd|].
  apply (search_is_substring Sample.db ana None "MILK" Sample.milk Hne eq_refl
           eq_refl eq_refl Hd).
  split.
  - apply list_elem_of_here.
  - left. by exists "buy ", "".
Defined.

(** ** Writing NULL into a required column *)

(** An update of an owned task fails exactly when the payload supplies
    [null] for [title] or for [status]; the exception is [IntegrityError]
    and nothing is stored, not even the other fields of the payload. *)
Theorem update_task_rejects_null (db : DB) (u : User.t) (task_id : Z) (row : DBTask.t)
    (task_update : TaskUpdate.t) (now : datetime) :
  owned_task task_id u db = Some row →
  let set := TaskUpdate.model_fields_set task_update in
  ("title" ∈ set ∧ TaskUpdate.title task_update = None) ∨
  ("status" ∈ set ∧ TaskUpdate.status task_update = None) ↔
  update_task task_id task_update u now db = (inl IntegrityError, db).
Proof.
  intros Hrow set.
  rewrite (update_task_owned db u task_id row task_update now Hrow). fold set.
  set (title' := if bool_decide ("title" ∈ set) then _ else _).
  set (description' := if bool_decide ("description" ∈ set) then _ else _).
  set (status' := if bool_decide ("status" ∈ set) then _ else _).
  assert (Ht : title' = None ↔ "title" ∈ set ∧ TaskUpdate.title task_update = None).
  { unfold title'. case_bool_decide; [tauto|]. split; [done|tauto]. }
  assert (Hs : status' = None ↔ "status" ∈ set ∧ TaskUpdate.status task_update = None).
  { unfold status'. case_bool_decide; [tauto|]. split; [done|tauto]. }
  rewrite <- Ht, <- Hs. clear Ht Hs. clearbody title' description' status'.
  case_bool_decide as Hsame.
  - injection Hsame as -> _ ->. split; [by intros [|]|done].
  - destruct title' as [title|], status' as [status|]; cbv beta iota zeta.
    + split; [by intros [|]|done].
    + split; [done|auto].
    + split; [done|auto].
    + split; [done|auto].
Qed.

(** Ana sends a new description together with a null title. *)
Lemma update_task_rejects_null_witness :
  let ana := User.model_validate Sample.ana in
  let payload := TaskUpdate.mk None (Some "urgent") None {["title"; "description"]} in
  owned_task 1 ana Sample.db = Some Sample.milk ∧
  update_task 1 payload ana 9000 Sample.db = (inl IntegrityError, Sample.db).
Proof.
  intros ana payload. split; [reflexivity|].
  apply (update_task_rejects_null Sample.db ana 1 Sample.milk payload 9000 eq_refl).
  left. split; [|reflexivity]. cbn. set_solver.
Defined.

(** ** An update that changes nothing *)

(** C3, as stated, fails.  Ana sets her report, which is completed, to
    completed again at second 9000: the update succeeds and returns the task
    as it was, [updated_at] still at 2500, and the store is untouched.  So a
    successful update call does not always refresh [updated_at]. *)
Lemma update_task_frame_counterexample :
  let ana := User.model_validate Sample.ana in
  let same := TaskUpdate.mk None None (Some completed) {["status"]} in
  owned_task 2 ana Sample.db = Some Sample.report ∧
  update_task 2 same ana 9000 Sample.db
    = (inr (Task.model_validate Sample.report), Sample.db) ∧
  Task.updated_at (Task.model_validate Sample.report) = 2500 ∧
  ¬ (∀ db u task_id task_update now task db',
       update_task task_id task_update u now db = (inr task, db') →
       Task.updated_at task = now).
Proof.
  intros ana same.
  assert (Hupdate : update_task 2 same ana 9000 Sample.db
                    = (inr (Task.model_validate Sample.report), Sample.db))
    by (by vm_compute).
  split_and!; [reflexivity|exact Hupdate|reflexivity|].
  intros Hrefresh. by specialize (Hrefresh _ _ _ _ _ _ _ Hupdate).
Qed.
